(** * Virtual-AI backend: job repository and upstream image client

    A shallow embedding of
    - [app/db/models.py]              (module [models]),
    - [app/api/v1/schemas/generate.py] (module [schemas]),
    - [app/crud/crud_job.py]          (module [crud_job]),
    - [app/services/openrouter_service.py] (module [openrouter_service]),
    followed by the properties of the job lifecycle and of the response
    resolution and retry engine. *)

From Stdlib Require Import ZArith NArith List String Ascii Bool Lia DecimalString.
Import ListNotations.

Local Open Scope string_scope.

(* ===================================================================== *)
(** * Part I: the program *)
(* ===================================================================== *)

(** ** app/db/models.py *)

Module models.

(** [class JobStatus(str, enum.Enum)] *)
Inductive JobStatus : Type :=
| PENDING
| PROCESSING
| COMPLETED
| FAILED.

Definition JobStatus_eqb (a b : JobStatus) : bool :=
  match a, b with
  | PENDING, PENDING | PROCESSING, PROCESSING
  | COMPLETED, COMPLETED | FAILED, FAILED => true
  | _, _ => false
  end.

(** A UUID is a 128-bit number; a timestamp is a reading of the database
    server's clock. *)
Definition UUID : Type := N.
Definition DateTime : Type := Z.

(** [class GenerationJob(Base)]: one row of [generation_jobs].  The
    columns [status], [reference_image_key] and [generated_image_key] are
    nullable ([status] has a default but no [nullable=False]). *)
Record GenerationJob : Type := mkGenerationJob {
  id : Z;
  uuid : UUID;
  prompt : string;
  status : option JobStatus;
  initial_image_key : string;
  reference_image_key : option string;
  generated_image_key : option string;
  created_at : DateTime;
  updated_at : DateTime
}.

End models.

(** ** app/api/v1/schemas/generate.py *)

Module schemas.

(** [class JobCreate(JobBase)] *)
Record JobCreate : Type := mkJobCreate {
  prompt : string;
  initial_image_key : string;
  reference_image_key : option string
}.

(** A pydantic field remembers whether it was passed to the constructor
    (it is then in [model_fields_set]) or was left at its default. *)
Inductive field (A : Type) : Type :=
| Unset
| Passed (value : A).
Arguments Unset {A}.
Arguments Passed {A} value.

(** [class JobUpdate(BaseModel)]: both fields are [... | None = None]. *)
Record JobUpdate : Type := mkJobUpdate {
  status : field (option models.JobStatus);
  generated_image_key : field (option string)
}.

(** One item of the dict [model_dump] returns: the field's name with its
    value. *)
Inductive item : Type :=
| status_item (value : option models.JobStatus)
| generated_image_key_item (value : option string).

(** [job_in.model_dump(exclude_unset=True)]: the passed fields, in the
    order of their declaration. *)
Definition model_dump_exclude_unset (job_in : JobUpdate) : list item :=
 (match status job_in with
  | Passed v => [status_item v]
  | Unset => []
  end ++
  match generated_image_key job_in with
  | Passed v => [generated_image_key_item v]
  | Unset => []
  end)%list.

End schemas.

(** ** app/crud/crud_job.py *)

Module crud_job.
Import models.

(** The table behind the [AsyncSession]: its rows in insertion order and
    the sequence of the integer primary key. *)
Record Database : Type := mkDatabase {
  generation_jobs : list GenerationJob;
  id_seq : Z
}.

Definition empty_db : Database :=
  {| generation_jobs := []; id_seq := 1 |}.

(** What a repository call gives back: a value, or the error the commit
    raises. *)
Inductive outcome (A : Type) : Type :=
| Returned (a : A)
| IntegrityError        (* the unique index on [uuid] is violated *)
| InvalidRequestError.  (* the object is not a row of the table *)
Arguments Returned {A} a.
Arguments IntegrityError {A}.
Arguments InvalidRequestError {A}.

Definition option_eqb {A : Type} (eqb : A -> A -> bool) (x y : option A) : bool :=
  match x, y with
  | Some a, Some b => eqb a b
  | None, None => true
  | _, _ => false
  end.

(** [setattr(db_job, field, value)] *)
Definition setattr (db_job : GenerationJob) (it : schemas.item) : GenerationJob :=
  match it with
  | schemas.status_item value =>
      {| id := id db_job; uuid := uuid db_job; prompt := prompt db_job;
         status := value;
         initial_image_key := initial_image_key db_job;
         reference_image_key := reference_image_key db_job;
         generated_image_key := generated_image_key db_job;
         created_at := created_at db_job;
         updated_at := updated_at db_job |}
  | schemas.generated_image_key_item value =>
      {| id := id db_job; uuid := uuid db_job; prompt := prompt db_job;
         status := status db_job;
         initial_image_key := initial_image_key db_job;
         reference_image_key := reference_image_key db_job;
         generated_image_key := value;
         created_at := created_at db_job;
         updated_at := updated_at db_job |}
  end.

(** The unit of work compares the two columns the repository assigns with
    the stored row and emits an UPDATE only for a net change. *)
Definition dirty (row obj : GenerationJob) : bool :=
  negb (option_eqb JobStatus_eqb (status row) (status obj)
        && option_eqb String.eqb (generated_image_key row) (generated_image_key obj)).

(** [UPDATE generation_jobs SET status=.., generated_image_key=..,
    updated_at=now() WHERE id = ..]: the other columns of the row stay as
    they are stored; [onupdate=func.now()] refreshes [updated_at]. *)
Definition update_row (now : DateTime) (row obj : GenerationJob) : GenerationJob :=
  if dirty row obj then
    {| id := id row; uuid := uuid row; prompt := prompt row;
       status := status obj;
       initial_image_key := initial_image_key row;
       reference_image_key := reference_image_key row;
       generated_image_key := generated_image_key obj;
       created_at := created_at row;
       updated_at := now |}
  else row.

(** [select(GenerationJob).where(GenerationJob.uuid == job_uuid)] followed
    by [result.scalars().first()]. *)
Definition get_job_by_uuid (db : Database) (job_uuid : UUID) : option GenerationJob :=
  find (fun j => N.eqb (uuid j) job_uuid) (generation_jobs db).

(** [db.add(obj); await db.commit(); await db.refresh(obj)] for an object
    that is already persistent: the row with the object's primary key is
    updated and read back. *)
Fixpoint write_row (now : DateTime) (obj : GenerationJob) (rows : list GenerationJob)
  : option (list GenerationJob * GenerationJob) :=
  match rows with
  | [] => None
  | row :: rest =>
      if Z.eqb (id row) (id obj) then
        Some (update_row now row obj :: rest, update_row now row obj)
      else
        match write_row now obj rest with
        | Some (rest', stored) => Some (row :: rest', stored)
        | None => None
        end
  end.

Definition commit_and_refresh (db : Database) (now : DateTime) (obj : GenerationJob)
  : outcome (Database * GenerationJob) :=
  match write_row now obj (generation_jobs db) with
  | Some (rows, stored) =>
      Returned ({| generation_jobs := rows; id_seq := id_seq db |}, stored)
  | None => InvalidRequestError
  end.

(** [create_job]: the [GenerationJob] built from the dumped [job_in] carries
    the three fields of the schema; the INSERT fills [id] from the sequence, [uuid]
    from [uuid.uuid4] (here the argument [new_uuid]), [status] with its
    default [PENDING], both timestamps with [func.now()], and leaves
    [generated_image_key] NULL. *)
Definition create_job (db : Database) (new_uuid : UUID) (now : DateTime)
           (job_in : schemas.JobCreate) : outcome (Database * GenerationJob) :=
  match get_job_by_uuid db new_uuid with
  | Some _ => IntegrityError
  | None =>
      let db_job :=
        {| id := id_seq db;
           uuid := new_uuid;
           prompt := schemas.prompt job_in;
           status := Some PENDING;
           initial_image_key := schemas.initial_image_key job_in;
           reference_image_key := schemas.reference_image_key job_in;
           generated_image_key := None;
           created_at := now;
           updated_at := now |} in
      Returned ({| generation_jobs := generation_jobs db ++ [db_job];
                   id_seq := id_seq db + 1 |}, db_job)
  end.

(** [update_job] *)
Definition update_job (db : Database) (now : DateTime)
           (db_job : GenerationJob) (job_in : schemas.JobUpdate)
  : outcome (Database * GenerationJob) :=
  let update_data := schemas.model_dump_exclude_unset job_in in
  let db_job := fold_left setattr update_data db_job in
  commit_and_refresh db now db_job.

(** [delete_job] *)
Definition delete_job (db : Database) (job_uuid : UUID)
  : Database * option GenerationJob :=
  let job_to_delete := get_job_by_uuid db job_uuid in
  match job_to_delete with
  | Some j =>
      ({| generation_jobs :=
            filter (fun row => negb (Z.eqb (id row) (id j))) (generation_jobs db);
          id_seq := id_seq db |}, job_to_delete)
  | None => (db, job_to_delete)
  end.

(** [update_job_status] *)
Definition update_job_status (db : Database) (now : DateTime)
           (job_uuid : UUID) (new_status : JobStatus) (generated_key : option string)
  : outcome (Database * option GenerationJob) :=
  match get_job_by_uuid db job_uuid with
  | None => Returned (db, None)
  | Some job =>
      let job := setattr job (schemas.status_item (Some new_status)) in
      let job :=
        match generated_key with
        | Some key => setattr job (schemas.generated_image_key_item (Some key))
        | None => job
        end in
      match commit_and_refresh db now job with
      | Returned (db', job') => Returned (db', Some job')
      | IntegrityError => IntegrityError
      | InvalidRequestError => InvalidRequestError
      end
  end.

(** *** The repository as a state machine

    A call of one of the four operations by its arguments; [Update] is
    [update_job] on the object [get_job_by_uuid] returns, the way callers
    obtain [db_job].  A call that raises leaves the rows as they were. *)
Inductive call : Type :=
| Create (new_uuid : UUID) (now : DateTime) (job_in : schemas.JobCreate)
| Update (job_uuid : UUID) (now : DateTime) (job_in : schemas.JobUpdate)
| UpdateStatus (job_uuid : UUID) (now : DateTime) (new_status : JobStatus)
               (generated_key : option string)
| Delete (job_uuid : UUID).

(** The INSERT the unique index rejects has drawn its primary key already:
    PostgreSQL does not give a value of a sequence back, whatever becomes of
    the statement or of its transaction. *)
Definition sequence_consumed (db : Database) : Database :=
  {| generation_jobs := generation_jobs db; id_seq := id_seq db + 1 |}.

Definition run (db : Database) (c : call) : Database :=
  match c with
  | Create new_uuid now job_in =>
      match create_job db new_uuid now job_in with
      | Returned (db', _) => db'
      | _ => sequence_consumed db
      end
  | Update job_uuid now job_in =>
      match get_job_by_uuid db job_uuid with
      | Some db_job =>
          match update_job db now db_job job_in with
          | Returned (db', _) => db'
          | _ => db
          end
      | None => db
      end
  | UpdateStatus job_uuid now new_status generated_key =>
      match update_job_status db now job_uuid new_status generated_key with
      | Returned (db', _) => db'
      | _ => db
      end
  | Delete job_uuid => fst (delete_job db job_uuid)
  end.

Definition run_all (db : Database) (calls : list call) : Database :=
  fold_left run calls db.


(** [status = COMPLETED] exactly when [generated_image_key] is set. *)
Definition is_completed (job : GenerationJob) : bool :=
  option_eqb JobStatus_eqb (status job) (Some COMPLETED).

Definition has_generated_key (job : GenerationJob) : bool :=
  match generated_image_key job with
  | Some _ => true
  | None => false
  end.

Definition completed_iff_key (job : GenerationJob) : bool :=
  Bool.eqb (is_completed job) (has_generated_key job).

(** A call that keeps status and key together: [update] passes both
    fields or neither, a key with [COMPLETED] and an explicit [None] with
    any other status; [update_job_status] passes a key with [COMPLETED],
    and no key with another status, which it applies only to a job that
    is not [COMPLETED]. *)
Definition keeps_key_with_status (db : Database) (c : call) : bool :=
  match c with
  | Create _ _ _ => true
  | Delete _ => true
  | Update _ _ job_in =>
      match schemas.status job_in, schemas.generated_image_key job_in with
      | schemas.Unset, schemas.Unset => true
      | schemas.Passed (Some COMPLETED), schemas.Passed (Some _) => true
      | schemas.Passed (Some COMPLETED), schemas.Passed None => false
      | schemas.Passed _, schemas.Passed None => true
      | _, _ => false
      end
  | UpdateStatus job_uuid _ new_status generated_key =>
      match new_status, generated_key with
      | COMPLETED, Some _ => true
      | COMPLETED, None => false
      | _, Some _ => false
      | _, None =>
          match get_job_by_uuid db job_uuid with
          | Some job => negb (is_completed job)
          | None => true
          end
      end
  end.

Fixpoint all_keep_key_with_status (db : Database) (calls : list call) : bool :=
  match calls with
  | [] => true
  | c :: rest =>
      keeps_key_with_status db c && all_keep_key_with_status (run db c) rest
  end.

(** The object is the row stored under its primary key: what the session
    holds for a job it has loaded or refreshed. *)
Definition persistent (db : Database) (job : GenerationJob) : Prop :=
  find (fun row => Z.eqb (id row) (id job)) (generation_jobs db) = Some job.

(** The primary key is unique. *)
Definition primary_key_unique (db : Database) : Prop :=
  NoDup (map id (generation_jobs db)).

(** The uuid a call is about. *)
Definition target (c : call) : UUID :=
  match c with
  | Create new_uuid _ _ => new_uuid
  | Update job_uuid _ _ => job_uuid
  | UpdateStatus job_uuid _ _ _ => job_uuid
  | Delete job_uuid => job_uuid
  end.

(** The unique index on [uuid]. *)
Definition uuid_unique (db : Database) : Prop :=
  NoDup (map uuid (generation_jobs db)).

(** The primary keys in use were all drawn from the sequence. *)
Definition ids_below_seq (db : Database) : Prop :=
  Forall (fun row => (id row < id_seq db)%Z) (generation_jobs db).

(** What the two indexes and the sequence guarantee of a table. *)
Definition well_formed (db : Database) : Prop :=
  primary_key_unique db /\ uuid_unique db /\ ids_below_seq db.

(** The columns no repository operation assigns. *)
Definition same_identity (a b : GenerationJob) : Prop :=
  id a = id b /\ uuid a = uuid b /\ prompt a = prompt b /\
  initial_image_key a = initial_image_key b /\
  reference_image_key a = reference_image_key b /\
  created_at a = created_at b.

End crud_job.

(** ** app/services/openrouter_service.py *)

Module openrouter_service.

Definition bytes : Type := list Byte.byte.

(** The exceptions that cross the module: the two domain errors, the
    [RetryError] of the retry decorator, and any other [Exception] (an
    error of [requests], a [TypeError], ...), kept by its class name. *)
Inductive exn : Type :=
| ImageGenerationError (msg : string)
| UpstreamUnavailable (msg : string)
| RetryError (last_attempt : exn)
| OtherException (name : string).

Definition is_UpstreamUnavailable (e : exn) : bool :=
  match e with
  | UpstreamUnavailable _ => true
  | _ => false
  end.

(** The values of [Any]: what a JSON document decodes to.  A dict keeps
    its items in insertion order. *)
#[local] Unset Elimination Schemes.
Inductive value : Type :=
| VNone
| VBool (b : bool)
| VInt (z : Z)
| VStr (s : string)
| VList (l : list value)
| VDict (items : list (string * value)).
#[local] Set Elimination Schemes.

(** Induction on a value goes through the elements of a list and the values
    of a dict. *)
Section value_induction.
Variable P : value -> Prop.
Hypothesis HNone : P VNone.
Hypothesis HBool : forall b, P (VBool b).
Hypothesis HInt : forall z, P (VInt z).
Hypothesis HStr : forall s, P (VStr s).
Hypothesis HList : forall l, Forall P l -> P (VList l).
Hypothesis HDict : forall items, Forall (fun kv => P (snd kv)) items -> P (VDict items).

Fixpoint value_ind (v : value) : P v :=
  match v with
  | VNone => HNone
  | VBool b => HBool b
  | VInt z => HInt z
  | VStr s => HStr s
  | VList l =>
      HList l ((fix all (l : list value) : Forall P l :=
                  match l with
                  | [] => Forall_nil _
                  | x :: rest => Forall_cons x (value_ind x) (all rest)
                  end) l)
  | VDict items =>
      HDict items
            ((fix all (l : list (string * value)) : Forall (fun kv => P (snd kv)) l :=
                match l with
                | [] => Forall_nil _
                | kv :: rest =>
                    Forall_cons (P := fun kv => P (snd kv)) kv
                                (value_ind (snd kv)) (all rest)
                end) items)
  end.
End value_induction.

(** Truth value of an object in a condition. *)
Definition truthy (v : value) : bool :=
  match v with
  | VNone => false
  | VBool b => b
  | VInt z => negb (Z.eqb z 0)
  | VStr s => negb (String.eqb s "")
  | VList l => match l with [] => false | _ => true end
  | VDict items => match items with [] => false | _ => true end
  end.

(** [if url:] for an [Optional[str]]. *)
Definition truthy_str (o : option string) : bool :=
  match o with
  | Some s => negb (String.eqb s "")
  | None => false
  end.

(** [if data:] for an [Optional[bytes]]. *)
Definition truthy_bytes (o : option bytes) : bool :=
  match o with
  | Some (_ :: _) => true
  | _ => false
  end.

(** [d.get(name)] *)
Fixpoint dict_get (items : list (string * value)) (name : string) : value :=
  match items with
  | [] => VNone
  | (k, v) :: rest => if String.eqb k name then v else dict_get rest name
  end.

(** [str(n)] as an f-string prints it. *)
Definition str (n : Z) : string := NilZero.string_of_int (Z.to_int n).

(** *** _build_messages *)

Definition _build_messages (prompt : string)
           (initial_url reference_url : option string) : list value :=
  let content := [VDict [("type", VStr "text"); ("text", VStr prompt)]] in
  let content :=
    match initial_url with
    | Some url =>
        if truthy_str initial_url
        then (content ++ [VDict [("type", VStr "image_url");
                                 ("image_url", VDict [("url", VStr url)])]])%list
        else content
    | None => content
    end in
  let content :=
    match reference_url with
    | Some url =>
        if truthy_str reference_url
        then (content ++ [VDict [("type", VStr "image_url");
                                 ("image_url", VDict [("url", VStr url)])]])%list
        else content
    | None => content
    end in
  [VDict [("role", VStr "user"); ("content", VList content)]].

(** *** _extract_url_from_text

    [re.search(r"https?://\S+", text)]: the leftmost match, [\S+] greedy.
    A text is held as its UTF-8 bytes.  For a [str] pattern [\s] is Unicode
    white space: U+0009-000D, U+001C-0020, U+0085, U+00A0, U+1680,
    U+2000-200A, U+2028, U+2029, U+202F, U+205F and U+3000.  In UTF-8 a lead
    byte is never a continuation byte, so the encoding of one of these is
    found at a byte of a text only where that character begins. *)

(** The text [s] begins with a white-space character. *)
Definition is_space (s : string) : bool :=
  match s with
  | String c rest =>
      let a := nat_of_ascii c in
      ((9 <=? a) && (a <=? 13) || (28 <=? a) && (a <=? 32)
       || match rest with
          | String c rest =>
              let b := nat_of_ascii c in
              (* C2 85, C2 A0 *)
              (a =? 194) && ((b =? 133) || (b =? 160))
              || match rest with
                 | String c _ =>
                     let d := nat_of_ascii c in
                     (* E1 9A 80 *)
                     (a =? 225) && (b =? 154) && (d =? 128)
                     (* E2 80 80 .. E2 80 8A, E2 80 A8, E2 80 A9, E2 80 AF *)
                     || (a =? 226) && (b =? 128)
                        && ((128 <=? d) && (d <=? 138)
                            || (d =? 168) || (d =? 169) || (d =? 175))
                     (* E2 81 9F *)
                     || (a =? 226) && (b =? 129) && (d =? 159)
                     (* E3 80 80 *)
                     || (a =? 227) && (b =? 128) && (d =? 128)
                 | EmptyString => false
                 end
          | EmptyString => false
          end)%nat
  | EmptyString => false
  end.

Fixpoint non_space_run (s : string) : string :=
  match s with
  | EmptyString => EmptyString
  | String c rest => if is_space s then EmptyString else String c (non_space_run rest)
  end.

Fixpoint strip_prefix (p s : string) : option string :=
  match p, s with
  | EmptyString, _ => Some s
  | String a p', String b s' => if Ascii.eqb a b then strip_prefix p' s' else None
  | String _ _, EmptyString => None
  end.

(** The pattern anchored at the head of [s]. *)
Definition match_url_here (s : string) : option string :=
  let with_scheme (scheme : string) :=
    match strip_prefix scheme s with
    | Some rest =>
        match non_space_run rest with
        | EmptyString => None
        | run => Some (scheme ++ run)
        end
    | None => None
    end in
  match with_scheme "https://" with
  | Some m => Some m
  | None => with_scheme "http://"
  end.

Fixpoint _extract_url_from_text (text : string) : option string :=
  match match_url_here text with
  | Some m => Some m
  | None =>
      match text with
      | EmptyString => None
      | String _ rest => _extract_url_from_text rest
      end
  end.

(** *** The requests sent upstream and what comes back *)

(** [OpenAI(base_url=..., api_key=key)] *)
Record OpenAI : Type := mkOpenAI {
  base_url : string;
  api_key : string
}.

(** [client.chat.completions.create(model=, messages=, extra_headers=,
    extra_body=)] *)
Record ChatRequest : Type := mkChatRequest {
  chat_client : OpenAI;
  chat_model : string;
  chat_messages : list value;
  chat_extra_headers : option (list (string * string));
  chat_extra_body : list (string * value)
}.

(** [client.responses.create(model=, input=, extra_body=)] *)
Record ResponsesRequest : Type := mkResponsesRequest {
  responses_client : OpenAI;
  responses_model : string;
  responses_input : list value;
  responses_extra_body : list (string * value)
}.

(** The chat completion as far as [generate_image] reads it:
    [resp.choices[0].message.content]. *)
Record ChatCompletionMessage : Type := mkMessage { content : value }.
Record Choice : Type := mkChoice { message : ChatCompletionMessage }.
Record ChatCompletion : Type := mkChatCompletion { choices : list Choice }.

(** How a call of the provider's client ends. *)
Inductive api_outcome (A : Type) : Type :=
| Responded (r : A)
| NotFoundError
| APIException.
Arguments Responded {A} r.
Arguments NotFoundError {A}.
Arguments APIException {A}.

(** [requests.Response] *)
Record Response : Type := mkResponse {
  status_code : Z;
  resp_content : bytes
}.

(** What the module does to the outside, in the order it does it. *)
Inductive event : Type :=
| ChatCompletionsCreate (req : ChatRequest)
| ResponsesCreate (req : ResponsesRequest)
| RequestsGet (url : string)
| Sleep (attempt_number : nat).

(** A computation either returns or raises. *)
Inductive result (A : Type) : Type :=
| Return (a : A)
| Raise (e : exn).
Arguments Return {A} a.
Arguments Raise {A} e.

Section Upstream.

(** The outside world: the state of the network and of the provider,
    and how each call answers in it and moves it on.  [requests_get]
    answers [None] when [requests] raises instead of returning a
    response; [b64decode] answers [None] when [base64.b64decode]
    raises. *)
Context {Env : Type}.
Variable requests_get : string -> Env -> option Response * Env.
Variable chat_completions_create :
  ChatRequest -> Env -> api_outcome ChatCompletion * Env.
Variable responses_create :
  ResponsesRequest -> Env -> api_outcome value * Env.
Variable wait : nat -> Env -> Env.
Variable b64decode : string -> option bytes.

Record World : Type := mkWorld {
  env : Env;
  log : list event
}.

(** [w'] is [w] some calls later. *)
Definition later (w w' : World) : Prop :=
  exists events, log w' = (log w ++ events)%list.

Definition M (A : Type) : Type := World -> result A * World.

Definition ret {A : Type} (a : A) : M A := fun w => (Return a, w).

Definition raise {A : Type} (e : exn) : M A := fun w => (Raise e, w).

Definition bind {A B : Type} (c : M A) (k : A -> M B) : M B :=
  fun w =>
    match c w with
    | (Return a, w') => k a w'
    | (Raise e, w') => (Raise e, w')
    end.

Notation "x <- c ;; k" := (bind c (fun x => k))
  (at level 61, c at next level, right associativity).

(** The four primitive effects, each recorded in the log. *)
Definition do_requests_get (url : string) : M Response :=
  fun w =>
    let (r, e) := requests_get url (env w) in
    let w' := {| env := e; log := log w ++ [RequestsGet url] |} in
    match r with
    | Some resp => (Return resp, w')
    | None => (Raise (OtherException "RequestException"), w')
    end.

Definition do_chat_completions_create (req : ChatRequest)
  : World -> api_outcome ChatCompletion * World :=
  fun w =>
    let (r, e) := chat_completions_create req (env w) in
    (r, {| env := e; log := log w ++ [ChatCompletionsCreate req] |}).

Definition do_responses_create (req : ResponsesRequest)
  : World -> api_outcome value * World :=
  fun w =>
    let (r, e) := responses_create req (env w) in
    (r, {| env := e; log := log w ++ [ResponsesCreate req] |}).

Definition do_sleep (attempt_number : nat) (w : World) : World :=
  {| env := wait attempt_number (env w);
     log := log w ++ [Sleep attempt_number] |}.

(** *** _decode_b64 *)
Definition _decode_b64 (data_b64 : value) : M bytes :=
  match data_b64 with
  | VStr s =>
      match b64decode s with
      | Some data => ret data
      | None => raise (ImageGenerationError "Failed to decode base64 image from upstream")
      end
  | _ => raise (ImageGenerationError "Failed to decode base64 image from upstream")
  end.

(** *** _fetch_bytes_from_url *)
Definition _fetch_bytes_from_url (url : string) : M bytes :=
  resp <- do_requests_get url ;;
  if (status_code resp =? 429)%Z
     || (500 <=? status_code resp)%Z && (status_code resp <? 600)%Z
  then raise (UpstreamUnavailable
                ("Upstream URL fetch failed: " ++ str (status_code resp)))
  else if (400 <=? status_code resp)%Z
  then raise (ImageGenerationError
                ("Failed to fetch image URL: " ++ str (status_code resp)))
  else ret (resp_content resp).

(** [_fetch_bytes_from_url(url)] for a [url] read out of a document:
    [requests] refuses a URL that is not a string. *)
Definition fetch_bytes_from (url : value) : M bytes :=
  match url with
  | VStr u => _fetch_bytes_from_url u
  | _ => raise (OtherException "MissingSchema")
  end.

(** *** _deep_find_image_payload

    Every level runs inside [try ... except Exception: return None], so
    the search returns and never raises. *)
Definition or_none (c : M bytes) : World -> option bytes * World :=
  fun w =>
    match c w with
    | (Return data, w') => (Some data, w')
    | (Raise _, w') => (None, w')
    end.

Fixpoint _deep_find_image_payload (obj : value) (w : World)
  : option bytes * World :=
  match obj with
  | VDict items =>
      if truthy (dict_get items "b64_json")
      then or_none (_decode_b64 (dict_get items "b64_json")) w
      else
        let url_container := dict_get items "image_url" in
        let url :=
          if truthy url_container
          then match url_container with
               | VDict c => dict_get c "url"
               | _ => VNone
               end
          else VNone in
        if truthy url
        then or_none (fetch_bytes_from url) w
        else
          (fix values (l : list (string * value)) (w : World)
             : option bytes * World :=
             match l with
             | [] => (None, w)
             | (_, v) :: rest =>
                 let (found, w') := _deep_find_image_payload v w in
                 if truthy_bytes found then (found, w') else values rest w'
             end) items w
  | VList l =>
      (fix elements (l : list value) (w : World) : option bytes * World :=
         match l with
         | [] => (None, w)
         | v :: rest =>
             let (found, w') := _deep_find_image_payload v w in
             if truthy_bytes found then (found, w') else elements rest w'
         end) l w
  | _ => (None, w)
  end.

(** *** _get *)
Definition _get (obj : value) (name : string) : value :=
  match obj with
  | VDict items => dict_get items name
  | _ => VNone
  end.

(** *** _extract_bytes_from_part

    [ptype in {"image_url", "output_image"}] raises [TypeError] for an
    unhashable [ptype]. *)
Definition _extract_bytes_from_part (part : value) : M (option bytes) :=
  let ptype := _get part "type" in
  match ptype with
  | VList _ | VDict _ => raise (OtherException "TypeError")
  | _ =>
      let url :=
        match ptype with
        | VStr t =>
            if String.eqb t "image_url" || String.eqb t "output_image"
            then match _get part "image_url" with
                 | VDict c => dict_get c "url"
                 | _ => VNone
                 end
            else VNone
        | _ => VNone
        end in
      if truthy url
      then data <- fetch_bytes_from url ;; ret (Some data)
      else
        let b64_data :=
          if truthy (_get part "b64_json")
          then _get part "b64_json"
          else _get part "b64" in
        if truthy b64_data
        then data <- _decode_b64 b64_data ;; ret (Some data)
        else ret None
  end.

(** *** _extract_bytes_from_parts *)
Fixpoint _extract_bytes_from_parts (parts : list value) : M (option bytes) :=
  fun w =>
    match parts with
    | [] => (Return None, w)
    | part :: rest =>
        match _extract_bytes_from_part part w with
        | (Return data, w') =>
            if truthy_bytes data
            then (Return data, w')
            else _extract_bytes_from_parts rest w'
        | (Raise _, w') =>               (* except Exception: continue *)
            _extract_bytes_from_parts rest w'
        end
    end.

(** *** _responses_fallback

    [data2] is the response dumped to plain dicts and lists; [VNone]
    stands for a response that could not be dumped at all. *)
Definition input_image (url : option string) : list value :=
  match url with
  | Some u =>
      if truthy_str url
      then [VDict [("type", VStr "input_image");
                   ("image_url", VDict [("url", VStr u)])]]
      else []
  | None => []
  end.

Definition responses_request (client : OpenAI) (model prompt : string)
           (initial_url reference_url : option string)
           (extra_body : option (list (string * value))) : ResponsesRequest :=
  {| responses_client := client;
     responses_model := model;
     responses_input :=
       [VDict [("role", VStr "user");
               ("content",
                VList ([VDict [("type", VStr "input_text"); ("text", VStr prompt)]]
                         ++ input_image initial_url
                         ++ input_image reference_url)%list)]];
     responses_extra_body :=
       match extra_body with Some b => b | None => [] end |}.

Definition _responses_fallback (client : OpenAI) (model prompt : string)
           (initial_url reference_url : option string)
           (extra_body : option (list (string * value))) : M (option bytes) :=
  fun w =>
    match do_responses_create
            (responses_request client model prompt initial_url reference_url
                               extra_body) w with
    | (NotFoundError, w') =>
        (Raise (ImageGenerationError "Model not available for image output"), w')
    | (APIException, w') =>
        (Raise (UpstreamUnavailable "OpenRouter responses call failed"), w')
    | (Responded data2, w') =>
        match data2 with
        | VNone => (Return None, w')
        | _ => let (found, w'') := _deep_find_image_payload data2 w' in
               (Return found, w'')
        end
    end.

(** *** The retry decorator

    [@retry(stop=, wait=, retry=)] of tenacity around a function [fn]:
    after an attempt that returns, its value is returned; after one
    that raises an exception the [retry] predicate rejects, the
    exception is raised again as it is; after one it accepts, the call
    stops when the attempt's number has reached the bound of [stop] and
    raises [RetryError] around that attempt (the attempt's own exception
    only under [reraise=True]), and otherwise sleeps and attempts again.
    [remaining] is the bound minus the number of the running attempt. *)
Section Retrying.
Context {A : Type}.
Variable stop_after_attempt : nat.
Variable retry_if_exception_type : exn -> bool.
Variable reraise : bool.
Variable fn : M A.

Fixpoint attempt_loop (remaining attempt_number : nat) : M A :=
  fun w =>
    match fn w with
    | (Return a, w') => (Return a, w')
    | (Raise e, w') =>
        if retry_if_exception_type e then
          match remaining with
          | O => if reraise then (Raise e, w') else (Raise (RetryError e), w')
          | S remaining' =>
              attempt_loop remaining' (S attempt_number)
                           (do_sleep attempt_number w')
          end
        else (Raise e, w')
    end.

Definition retry : M A := attempt_loop (stop_after_attempt - 1) 1.
End Retrying.

(** *** generate_image *)
Variable settings_OPENROUTER_API_KEY : string.

Definition chat_request (client : OpenAI) (model : string) (messages : list value)
           (http_referer x_title : option string)
           (extra_body : option (list (string * value))) : ChatRequest :=
  let headers :=
    (match http_referer with
     | Some h => if truthy_str http_referer then [("HTTP-Referer", h)] else []
     | None => []
     end ++
     match x_title with
     | Some t => if truthy_str x_title then [("X-Title", t)] else []
     | None => []
     end)%list in
  {| chat_client := client;
     chat_model := model;
     chat_messages := messages;
     chat_extra_headers := match headers with [] => None | _ => Some headers end;
     chat_extra_body := match extra_body with Some b => b | None => [] end |}.

Section GenerateImage.
Variables (prompt : string) (initial_url reference_url api_key : option string)
          (model : string) (http_referer x_title : option string)
          (extra_body : option (list (string * value))).

Definition key : string :=
  match api_key with
  | Some k => if truthy_str api_key then k else settings_OPENROUTER_API_KEY
  | None => settings_OPENROUTER_API_KEY
  end.

Definition messages : list value :=
  _build_messages prompt initial_url reference_url.

Definition _sync_request_and_extract_bytes : M bytes :=
  fun w =>
    let client := mkOpenAI "https://openrouter.ai/api/v1" key in
    match do_chat_completions_create
            (chat_request client model messages http_referer x_title extra_body) w with
    | (NotFoundError, w') =>
        (Raise (ImageGenerationError
                  "Model not available. Check model name or your access."), w')
    | (APIException, w') =>
        (Raise (UpstreamUnavailable "OpenRouter request failed"), w')
    | (Responded resp, w') =>
        match nth_error (choices resp) 0 with
        | None =>
            (Raise (ImageGenerationError
                      "Malformed response from upstream: missing message content"), w')
        | Some choice =>
            match content (message choice) with
            | VStr text =>
                match _extract_url_from_text text with
                | None =>
                    (Raise (ImageGenerationError
                              "Upstream returned text content without an image URL"), w')
                | Some url => _fetch_bytes_from_url url w'
                end
            | other =>
                (found <- match other with
                          | VList parts => _extract_bytes_from_parts parts
                          | _ => ret None
                          end ;;
                 match found with
                 | Some (b :: data) => ret (b :: data)
                 | _ =>
                     (* Fallback to responses API *)
                     found <- _responses_fallback client model prompt initial_url
                                                  reference_url extra_body ;;
                     match found with
                     | Some (b :: data) => ret (b :: data)
                     | _ => raise (ImageGenerationError
                                     "Upstream did not include an image payload")
                     end
                 end) w'
            end
        end
    end.

(** [stop_after_attempt(3)], [retry_if_exception_type(UpstreamUnavailable)]
    and no [reraise]. *)
Definition generate_image : M bytes :=
  retry 3 is_UpstreamUnavailable false _sync_request_and_extract_bytes.
End GenerateImage.

End Upstream.

End openrouter_service.

(** ** app/services/storage_service.py *)

Module storage_service.
Import openrouter_service.

(** How a call of the S3 client ends: it returns, raises [ClientError] (with
    the HTTP status code of the response metadata, when it has one), or
    raises another exception, kept by its class name. *)
Inductive s3_outcome (A : Type) : Type :=
| S3Returned (a : A)
| ClientError (HTTPStatusCode : option Z)
| S3Exception (name : string).
Arguments S3Returned {A} a.
Arguments ClientError {A} HTTPStatusCode.
Arguments S3Exception {A} name.

(** The calls made on the client, as the module makes them. *)
Inductive s3_call : Type :=
| HeadBucket (Bucket : string)
| CreateBucket (Bucket : string)
| PutObject (Bucket Key : string) (Body : bytes) (ContentType : string)
| GeneratePresignedUrl (Bucket Key : string) (ExpiresIn : Z).

(** The exception a failed call raises, as the callers see it. *)
Definition raised {A : Type} (r : s3_outcome A) : exn :=
  match r with
  | S3Exception name => OtherException name
  | _ => OtherException "ClientError"
  end.

Section Storage.

(** The object store behind the client, and [settings.S3_BUCKET_NAME]. *)
Context {S3 : Type}.
Variable head_bucket : string -> S3 -> s3_outcome unit * S3.
Variable create_bucket : string -> S3 -> s3_outcome unit * S3.
Variable put_object : string -> string -> bytes -> string -> S3 -> s3_outcome unit * S3.
Variable generate_presigned_url : string -> string -> Z -> S3 -> s3_outcome string * S3.
Variable settings_S3_BUCKET_NAME : string.

(** The module's state: the store, the global [_BUCKET_CHECKED], and the
    calls made so far. *)
Record Store : Type := mkStore {
  s3 : S3;
  _BUCKET_CHECKED : bool;
  calls : list s3_call
}.

Definition call_client {A : Type} (c : s3_call) (f : S3 -> s3_outcome A * S3)
  : Store -> s3_outcome A * Store :=
  fun st =>
    let (r, s') := f (s3 st) in
    (r, {| s3 := s'; _BUCKET_CHECKED := _BUCKET_CHECKED st;
           calls := calls st ++ [c] |}).

(** *** _ensure_bucket_sync *)
Definition _ensure_bucket_sync (st : Store) : result unit * Store :=
  let bucket := settings_S3_BUCKET_NAME in
  match call_client (HeadBucket bucket) (head_bucket bucket) st with
  | (S3Returned _, st1) => (Return tt, st1)
  | (ClientError http_status, st1) =>
      let code := match http_status with Some c => c | None => 0%Z end in
      if (code =? 404)%Z then
        match call_client (CreateBucket bucket) (create_bucket bucket) st1 with
        | (S3Returned _, st2) => (Return tt, st2)
        | (failed, st2) => (Raise (raised failed), st2)
        end
      else (Raise (OtherException "ClientError"), st1)
  | (S3Exception name, st1) => (Raise (OtherException name), st1)
  end.

(** *** ensure_bucket_exists *)
Definition ensure_bucket_exists (st : Store) : result unit * Store :=
  if _BUCKET_CHECKED st then (Return tt, st)
  else
    match _ensure_bucket_sync st with
    | (Return _, st1) =>
        (Return tt, {| s3 := s3 st1; _BUCKET_CHECKED := true; calls := calls st1 |})
    | (Raise e, st1) => (Raise e, st1)
    end.

(** *** upload_from_bytes *)
Definition upload_from_bytes (key : string) (data : bytes) (content_type : string)
           (st : Store) : result string * Store :=
  match ensure_bucket_exists st with
  | (Raise e, st1) => (Raise e, st1)
  | (Return _, st1) =>
      match call_client (PutObject settings_S3_BUCKET_NAME key data content_type)
                        (put_object settings_S3_BUCKET_NAME key data content_type)
                        st1 with
      | (S3Returned _, st2) => (Return key, st2)
      | (failed, st2) => (Raise (raised failed), st2)
      end
  end.

(** *** get_signed_url *)
Definition get_signed_url (key : string) (expires : Z) (st : Store)
  : result string * Store :=
  match ensure_bucket_exists st with
  | (Raise e, st1) => (Raise e, st1)
  | (Return _, st1) =>
      match call_client (GeneratePresignedUrl settings_S3_BUCKET_NAME key expires)
                        (generate_presigned_url settings_S3_BUCKET_NAME key expires)
                        st1 with
      | (S3Returned url, st2) => (Return url, st2)
      | (failed, st2) => (Raise (raised failed), st2)
      end
  end.

(** The objects written by a stretch of calls. *)
Fixpoint puts (l : list s3_call) : list s3_call :=
  match l with
  | [] => []
  | PutObject b k d c :: rest => PutObject b k d c :: puts rest
  | _ :: rest => puts rest
  end.

End Storage.

End storage_service.

(** ** scripts/smoke_service.py *)

Module smoke_service.
Import models openrouter_service storage_service.

Definition DEFAULT_INITIAL_URL : string :=
  "https://i.pinimg.com/736x/fd/80/8e/fd808e5c2377c94bc21b5453dfccfc33.jpg".

Definition DEFAULT_REFERENCE_URL : string :=
  "https://i.pinimg.com/1200x/a8/a1/fb/a8a1fb968a89178036f36a32bb1ee27a.jpg".

Definition DEFAULT_PROMPT : string :=
  "Make the first model wear the outfit from the second image. Maintain identity and realism.".

(** *** sniff_content_type *)

(** [b"\x89PNG\r\n\x1a\n"] *)
Definition png_signature : bytes :=
  [Byte.x89; Byte.x50; Byte.x4e; Byte.x47; Byte.x0d; Byte.x0a; Byte.x1a; Byte.x0a].

(** [data.startswith(prefix)] *)
Fixpoint startswith (data prefix : bytes) : bool :=
  match prefix, data with
  | [], _ => true
  | p :: prefix', d :: data' => Byte.eqb p d && startswith data' prefix'
  | _ :: _, [] => false
  end.

Fixpoint bytes_eqb (a b : bytes) : bool :=
  match a, b with
  | [], [] => true
  | x :: a', y :: b' => Byte.eqb x y && bytes_eqb a' b'
  | _, _ => false
  end.

Definition sniff_content_type (data : bytes) : string :=
  if startswith data png_signature then "image/png"
  else if bytes_eqb (firstn 2 data) [Byte.xff; Byte.xd8] then "image/jpeg"
  else "application/octet-stream".

Section Smoke.

Context {Env S3 : Type}.
Variable requests_get : string -> Env -> option Response * Env.
Variable chat_completions_create :
  ChatRequest -> Env -> api_outcome ChatCompletion * Env.
Variable responses_create : ResponsesRequest -> Env -> api_outcome value * Env.
Variable wait : nat -> Env -> Env.
Variable b64decode : string -> option bytes.
Variable head_bucket : string -> S3 -> s3_outcome unit * S3.
Variable create_bucket : string -> S3 -> s3_outcome unit * S3.
Variable put_object : string -> string -> bytes -> string -> S3 -> s3_outcome unit * S3.
Variable generate_presigned_url : string -> string -> Z -> S3 -> s3_outcome string * S3.
Variable settings_S3_BUCKET_NAME : string.
Variable settings_OPENROUTER_API_KEY : string.

(** [os.getenv]: the process environment. *)
Variable environ : string -> option string.

(** What one run draws: [secrets.token_hex(8)], the [uuid4] of the new row,
    and the database clock at the insert and at the status update. *)
Variable run_id : string.
Variable new_uuid : UUID.
Variables created updated : DateTime.

(** [os.getenv(name, default)] *)
Definition getenv (name default : string) : string :=
  match environ name with
  | Some v => v
  | None => default
  end.

(** *** _download_bytes: [requests.get] then [raise_for_status], which
    raises [HTTPError] for a status from 400 to 599. *)
Definition _download_bytes (url : string) : M bytes :=
  bind (do_requests_get requests_get url)
       (fun resp =>
          if (400 <=? status_code resp)%Z && (status_code resp <? 600)%Z
          then raise (OtherException "HTTPError")
          else ret (resp_content resp)).

(** The state a run works on: the table, the network and provider with the
    log of the client, and the object store. *)
Record Process : Type := mkProcess {
  db : crud_job.Database;
  net : @World Env;
  store : @Store S3
}.

(** The exception a failed commit raises. *)
Definition commit_error {A : Type} (r : crud_job.outcome A) : exn :=
  match r with
  | crud_job.IntegrityError => OtherException "IntegrityError"
  | _ => OtherException "InvalidRequestError"
  end.

Definition initial_key : string := "smoke/" ++ run_id ++ "/initial.jpg".
Definition reference_key : string := "smoke/" ++ run_id ++ "/reference.jpg".
Definition generated_key : string := "smoke/" ++ run_id ++ "/generated.jpg".

Definition upload (key : string) (data : bytes) : Store -> result string * Store :=
  upload_from_bytes head_bucket create_bucket put_object settings_S3_BUCKET_NAME
                    key data (sniff_content_type data).

(** The first [try] block of [main]: download both input images, then
    upload both. *)
Definition transfer_inputs (initial_url reference_url : string)
           (w : @World Env) (st : @Store S3)
  : result unit * @World Env * @Store S3 :=
  match _download_bytes initial_url w with
  | (Raise e, w1) => (Raise e, w1, st)
  | (Return initial_bytes, w1) =>
      match _download_bytes reference_url w1 with
      | (Raise e, w2) => (Raise e, w2, st)
      | (Return ref_bytes, w2) =>
          match upload initial_key initial_bytes st with
          | (Raise e, st1) => (Raise e, w2, st1)
          | (Return _, st1) =>
              match upload reference_key ref_bytes st1 with
              | (Raise e, st2) => (Raise e, w2, st2)
              | (Return _, st2) => (Return tt, w2, st2)
              end
          end
      end
  end.

(** [await crud_job.update_job_status(db, job_uuid=job.uuid,
    new_status=JobStatus.FAILED)] followed by [raise]: the exception being
    handled is raised again, unless the update itself raises. *)
Definition mark_failed_and_raise {A : Type} (database : crud_job.Database)
           (job : GenerationJob) (exc : exn) (w : @World Env) (st : @Store S3)
  : result A * Process :=
  match crud_job.update_job_status database updated (uuid job) FAILED None with
  | crud_job.Returned (db2, _) =>
      (Raise exc, {| db := db2; net := w; store := st |})
  | failed =>
      (Raise (commit_error failed), {| db := database; net := w; store := st |})
  end.

(** *** main

    What the script prints, the job's uuid and the signed URL, is what it
    returns here.  The schema creation at the start leaves an existing table
    as it is. *)
Definition main (p : Process) : result (UUID * string) * Process :=
  if String.eqb settings_OPENROUTER_API_KEY "" then
    (Raise (OtherException "RuntimeError"), p)
  else
    let initial_url := getenv "SMOKE_INITIAL_URL" DEFAULT_INITIAL_URL in
    let reference_url := getenv "SMOKE_REFERENCE_URL" DEFAULT_REFERENCE_URL in
    let prompt := getenv "SMOKE_PROMPT" DEFAULT_PROMPT in
    let model := getenv "OPENROUTER_MODEL" "google/gemini-2.5-flash-image-preview" in
    match crud_job.create_job (db p) new_uuid created
            {| schemas.prompt := prompt;
               schemas.initial_image_key := initial_key;
               schemas.reference_image_key := Some reference_key |} with
    | crud_job.Returned (db1, job) =>
        match transfer_inputs initial_url reference_url (net p) (store p) with
        | (Raise exc, w1, st1) => mark_failed_and_raise db1 job exc w1 st1
        | (Return _, w1, st1) =>
            match generate_image
                    requests_get chat_completions_create responses_create wait
                    b64decode settings_OPENROUTER_API_KEY
                    prompt (Some initial_url) (Some reference_url) None model
                    (environ "HTTP_REFERER") (environ "X_TITLE")
                    (Some [("max_tokens", VInt 1024)]) w1 with
            | (Raise (ImageGenerationError msg), w2) =>
                mark_failed_and_raise db1 job (ImageGenerationError msg) w2 st1
            | (Raise (UpstreamUnavailable msg), w2) =>
                mark_failed_and_raise db1 job (UpstreamUnavailable msg) w2 st1
            | (Raise e, w2) => (Raise e, {| db := db1; net := w2; store := st1 |})
            | (Return gen_bytes, w2) =>
                match upload generated_key gen_bytes st1 with
                | (Raise e, st2) =>
                    (Raise e, {| db := db1; net := w2; store := st2 |})
                | (Return _, st2) =>
                    match crud_job.update_job_status
                            db1 updated (uuid job) COMPLETED (Some generated_key) with
                    | crud_job.Returned (db2, _) =>
                        match get_signed_url
                                head_bucket create_bucket generate_presigned_url
                                settings_S3_BUCKET_NAME generated_key 3600 st2 with
                        | (Return url, st3) =>
                            (Return (uuid job, url),
                             {| db := db2; net := w2; store := st3 |})
                        | (Raise e, st3) =>
                            (Raise e, {| db := db2; net := w2; store := st3 |})
                        end
                    | failed =>
                        (Raise (commit_error failed),
                         {| db := db1; net := w2; store := st2 |})
                    end
                end
            end
        end
    | failed =>
        (Raise (commit_error failed),
         {| db := crud_job.sequence_consumed (db p); net := net p; store := store p |})
    end.

End Smoke.

End smoke_service.

(** ** The primary request as the specification words it *)

Module spec.
Import openrouter_service.

(** A single user message whose content is, in order: a text part with the
    prompt, an image-reference part for the initial URL if present, one for
    the reference URL if present. *)
Definition image_reference_part (url : string) : value :=
  VDict [("type", VStr "image_url"); ("image_url", VDict [("url", VStr url)])].

(** The code takes a URL as present when it is given and not empty. *)
Definition given_and_not_empty (url : option string) : option string :=
  match url with
  | Some EmptyString => None
  | other => other
  end.

Definition if_present (url : option string) : list value :=
  match url with
  | Some u => [image_reference_part u]
  | None => []
  end.

Definition single_user_message (prompt : string)
           (initial_url reference_url : option string) : list value :=
  [VDict [("role", VStr "user");
          ("content",
           VList (VDict [("type", VStr "text"); ("text", VStr prompt)]
                    :: if_present initial_url ++ if_present reference_url)%list)]].

End spec.

(** ** Words for what the client reads and does *)

Module url_pattern.
Import openrouter_service.

(** No white-space character begins inside [run], read with the text
    [post] that follows it. *)
Definition no_space (run post : string) : Prop :=
  forall before after : string,
    run = before ++ after -> after <> EmptyString ->
    is_space (after ++ post) = false.

(** [s] is empty or begins with white space: where a greedy run of
    non-space characters has to stop. *)
Definition ends_run (s : string) : bool :=
  match s with
  | EmptyString => true
  | String _ _ => is_space s
  end.

(** The pattern matches at the head of [s]: one of the two schemes, and
    then a character that is not white space. *)
Definition url_starts (s : string) : Prop :=
  exists tail : string,
    (s = "http://" ++ tail \/ s = "https://" ++ tail) /\
    tail <> EmptyString /\ is_space tail = false.

End url_pattern.

Module trace.
Import openrouter_service.

(** The chat requests of a log, in order. *)
Fixpoint chat_requests (events : list event) : list ChatRequest :=
  match events with
  | [] => []
  | ChatCompletionsCreate req :: rest => req :: chat_requests rest
  | _ :: rest => chat_requests rest
  end.

(** The numbers of the attempts the retry slept after, in order. *)
Fixpoint sleeps (events : list event) : list nat :=
  match events with
  | [] => []
  | Sleep n :: rest => n :: sleeps rest
  | _ :: rest => sleeps rest
  end.

(** The URLs fetched and the requests to the responses API. *)
Fixpoint fetches (events : list event) : list string :=
  match events with
  | [] => []
  | RequestsGet url :: rest => url :: fetches rest
  | _ :: rest => fetches rest
  end.

(** A stretch of the log with no chat request and no sleep in it: what the
    inside of one attempt adds after its chat request. *)
Definition inside_attempt (events : list event) : Prop :=
  chat_requests events = [] /\ sleeps events = [].

(** The stretch of the log a retried call adds when [more] attempts follow
    its first one.  An attempt is its chat request followed by events that are
    neither chat requests nor sleeps; between an attempt and the next lies the
    one sleep taken after attempt number [n], and after the last attempt
    there is none. *)
Fixpoint attempts (req : ChatRequest) (n more : nat) (events : list event) : Prop :=
  exists inside : list event,
    inside_attempt inside /\
    match more with
    | O => events = ChatCompletionsCreate req :: inside
    | S more' =>
        exists rest : list event,
          events = (ChatCompletionsCreate req :: inside ++ Sleep n :: rest)%list /\
          attempts req (S n) more' rest
    end.

(** Some dict of the document, at any depth, offers an image: a truthy
    [b64_json], or an [image_url] dict with a truthy [url]. *)
Fixpoint offers_image (v : value) : bool :=
  match v with
  | VDict items =>
      truthy (dict_get items "b64_json")
      || match dict_get items "image_url" with
         | VDict c => truthy (dict_get c "url")
         | _ => false
         end
      || (fix any (l : list (string * value)) : bool :=
            match l with
            | [] => false
            | (_, x) :: rest => offers_image x || any rest
            end) items
  | VList l =>
      (fix any (l : list value) : bool :=
         match l with
         | [] => false
         | x :: rest => offers_image x || any rest
         end) l
  | _ => false
  end.

(** [w'] is [w] with a stretch of log added that satisfies [P]. *)
Definition adds {Env : Type} (P : list event -> Prop) (w w' : @World Env) : Prop :=
  exists events, log w' = (log w ++ events)%list /\ P events.

End trace.

(** ** A scripted provider and network, to run the client *)

Module stub.
Import openrouter_service.

(** Each kind of call answers with the head of its script and drops it; a
    script that has run out answers with a failure. *)
Record Script : Type := mkScript {
  chat_answers : list (api_outcome ChatCompletion);
  responses_answers : list (api_outcome value);
  get_answers : list (option Response)
}.

Definition chat_completions_create (req : ChatRequest) (s : Script)
  : api_outcome ChatCompletion * Script :=
  match chat_answers s with
  | r :: rest =>
      (r, {| chat_answers := rest;
             responses_answers := responses_answers s;
             get_answers := get_answers s |})
  | [] => (APIException, s)
  end.

Definition responses_create (req : ResponsesRequest) (s : Script)
  : api_outcome value * Script :=
  match responses_answers s with
  | r :: rest =>
      (r, {| chat_answers := chat_answers s;
             responses_answers := rest;
             get_answers := get_answers s |})
  | [] => (APIException, s)
  end.

Definition requests_get (url : string) (s : Script) : option Response * Script :=
  match get_answers s with
  | r :: rest =>
      (r, {| chat_answers := chat_answers s;
             responses_answers := responses_answers s;
             get_answers := rest |})
  | [] => (None, s)
  end.

Definition wait (attempt_number : nat) (s : Script) : Script := s.

(** A decoder that knows one string: ["aGk="] is the two bytes of "hi". *)
Definition b64decode (s : string) : option bytes :=
  if String.eqb s "aGk=" then Some [Byte.x68; Byte.x69] else None.

Definition start (s : Script) : World := {| env := s; log := [] |}.

(** The client run against the script. *)
Definition run_generate_image (s : Script) (prompt : string)
           (initial_url reference_url : option string) : result bytes * World :=
  openrouter_service.generate_image
    requests_get chat_completions_create responses_create wait b64decode
    "sk-or-test" prompt initial_url reference_url None
    "google/gemini-2.5-flash-image-preview:free" None None None (start s).

(** One attempt of the client against the script. *)
Definition run_attempt (s : Script) (prompt : string)
           (initial_url reference_url : option string) : result bytes * World :=
  openrouter_service._sync_request_and_extract_bytes
    requests_get chat_completions_create responses_create b64decode
    "sk-or-test" prompt initial_url reference_url None
    "google/gemini-2.5-flash-image-preview:free" None None None (start s).

Definition run_extract_bytes_from_part (part : value) (w : World)
  : result (option bytes) * World :=
  openrouter_service._extract_bytes_from_part requests_get b64decode part w.

Definition run_extract_bytes_from_parts (parts : list value) (w : World)
  : result (option bytes) * World :=
  openrouter_service._extract_bytes_from_parts requests_get b64decode parts w.

Definition chat_answer (c : value) : api_outcome ChatCompletion :=
  Responded {| choices := [ {| message := {| content := c |} |} ] |}.

Definition http (status : Z) (body : bytes) : option Response :=
  Some {| status_code := status; resp_content := body |}.

(** The provider answers with plain text that holds no URL. *)
Definition text_without_url : Script :=
  {| chat_answers := [chat_answer (VStr "Sorry, I cannot edit this image.")];
     responses_answers := [Responded (VDict [("b64_json", VStr "aGk=")])];
     get_answers := [] |}.

(** The provider's chat call fails on every attempt. *)
Definition always_unavailable : Script :=
  {| chat_answers := [APIException; APIException; APIException; APIException];
     responses_answers := [];
     get_answers := [] |}.

(** Two image parts; the first URL answers 503, the second 200. *)
Definition two_image_parts : list value :=
  [spec.image_reference_part "https://cdn.example/a.png";
   spec.image_reference_part "https://cdn.example/b.png"].

Definition first_fetch_503 : Script :=
  {| chat_answers := [];
     responses_answers := [];
     get_answers := [http 503 []; http 200 [Byte.x89; Byte.x50]] |}.


(** The provider answers with an empty parts list, then the fallback call
    answers with an inline image. *)
Definition empty_parts_then_fallback : Script :=
  {| chat_answers := [chat_answer (VList [])];
     responses_answers := [Responded (VDict [("b64_json", VStr "aGk=")])];
     get_answers := [] |}.

(** A provider whose chat call always answers with an empty parts list. *)
Definition chat_always_empty_parts (req : ChatRequest) (s : Script)
  : api_outcome ChatCompletion * Script :=
  (chat_answer (VList []), s).

(** A part that declares itself text and carries inline data. *)
Definition text_part_with_inline_data : value :=
  VDict [("type", VStr "text"); ("b64_json", VStr "aGk=")].

End stub.

(** ** An object store in memory, and whole runs of the smoke script *)

Module stub_s3.
Import openrouter_service storage_service.
Local Open Scope Z_scope.

(** The buckets that exist and the objects written, in order. *)
Record Memory : Type := mkMemory {
  buckets : list string;
  objects : list (string * string * bytes * string)
}.

Definition has_bucket (b : string) (m : Memory) : bool :=
  existsb (String.eqb b) (buckets m).

Definition head_bucket (b : string) (m : Memory) : s3_outcome unit * Memory :=
  if has_bucket b m then (S3Returned tt, m) else (ClientError (Some 404), m).

Definition create_bucket (b : string) (m : Memory) : s3_outcome unit * Memory :=
  (S3Returned tt, {| buckets := b :: buckets m; objects := objects m |}).

Definition put_object (b k : string) (d : bytes) (c : string) (m : Memory)
  : s3_outcome unit * Memory :=
  if has_bucket b m
  then (S3Returned tt,
        {| buckets := buckets m; objects := objects m ++ [(b, k, d, c)] |})
  else (ClientError (Some 404), m).

Definition generate_presigned_url (b k : string) (expires : Z) (m : Memory)
  : s3_outcome string * Memory :=
  (S3Returned ("https://s3.example/" ++ b ++ "/" ++ k ++ "?signed"), m).

(** A store that refuses to tell whether the bucket exists. *)
Definition head_bucket_forbidden (b : string) (m : Memory) : s3_outcome unit * Memory :=
  (ClientError (Some 403), m).

(** A fresh process: no bucket yet, nothing checked. *)
Definition fresh : Store :=
  {| s3 := {| buckets := []; objects := [] |};
     _BUCKET_CHECKED := false;
     calls := [] |}.

Definition ensure_bucket_exists (st : Store) : result unit * Store :=
  storage_service.ensure_bucket_exists head_bucket create_bucket "virtual-ai" st.

Definition upload_from_bytes (key : string) (data : bytes) (content_type : string)
           (st : Store) : result string * Store :=
  storage_service.upload_from_bytes head_bucket create_bucket put_object
                                    "virtual-ai" key data content_type st.

(** The smoke script with nothing set in the process environment, run id
    ["00ff"], against a scripted network and provider, the store in memory
    and a table. *)
Definition main (script : stub.Script) (table : crud_job.Database)
  : result (models.UUID * string) * smoke_service.Process :=
  smoke_service.main
    stub.requests_get stub.chat_completions_create stub.responses_create
    stub.wait stub.b64decode
    head_bucket create_bucket put_object generate_presigned_url
    "virtual-ai" "sk-or-test" (fun _ => None) "00ff" 7%N 100 200
    {| smoke_service.db := table;
       smoke_service.net := stub.start script;
       smoke_service.store := fresh |}.

(** Both input images download, and the provider answers with an inline
    image. *)
Definition all_goes_well : stub.Script :=
  {| stub.chat_answers := [stub.chat_answer (VList [stub.text_part_with_inline_data])];
     stub.responses_answers := [];
     stub.get_answers := [stub.http 200 [Byte.xff; Byte.xd8; Byte.x00];
                          stub.http 200 [Byte.xff; Byte.xd8; Byte.x01]] |}.

(** Both input images download, and the provider is unavailable. *)
Definition provider_down : stub.Script :=
  {| stub.chat_answers := [];
     stub.responses_answers := [];
     stub.get_answers := [stub.http 200 [Byte.xff; Byte.xd8; Byte.x00];
                          stub.http 200 [Byte.xff; Byte.xd8; Byte.x01]] |}.

(** Both input images download, and the provider does not know the model. *)
Definition model_not_found : stub.Script :=
  {| stub.chat_answers := [NotFoundError];
     stub.responses_answers := [];
     stub.get_answers := [stub.http 200 [Byte.xff; Byte.xd8; Byte.x00];
                          stub.http 200 [Byte.xff; Byte.xd8; Byte.x01]] |}.

End stub_s3.

(** ** Sample data: jobs and tables used to run the repository *)

Module samples.
Import models crud_job.
Local Open Scope Z_scope.

Definition swap_background : schemas.JobCreate :=
  {| schemas.prompt := "swap background";
     schemas.initial_image_key := "u/1/initial.jpg";
     schemas.reference_image_key := None |}.

(** The table after one [create_job]: a single pending job with uuid 7. *)
Definition pending_job : GenerationJob :=
  {| id := 1; uuid := 7%N; prompt := "swap background";
     status := Some PENDING;
     initial_image_key := "u/1/initial.jpg";
     reference_image_key := None;
     generated_image_key := None;
     created_at := 100; updated_at := 100 |}.

Definition one_pending : Database :=
  {| generation_jobs := [pending_job]; id_seq := 2 |}.

(** The same job once completed with its generated key. *)
Definition completed_job : GenerationJob :=
  {| id := 1; uuid := 7%N; prompt := "swap background";
     status := Some COMPLETED;
     initial_image_key := "u/1/initial.jpg";
     reference_image_key := None;
     generated_image_key := Some "u/1/generated.png";
     created_at := 100; updated_at := 200 |}.

Definition one_completed : Database :=
  {| generation_jobs := [completed_job]; id_seq := 2 |}.

(** A second job, and a table that holds both. *)
Definition second_job : GenerationJob :=
  {| id := 2; uuid := 9%N; prompt := "add a hat";
     status := Some PENDING;
     initial_image_key := "u/2/initial.jpg";
     reference_image_key := Some "u/2/reference.jpg";
     generated_image_key := None;
     created_at := 160; updated_at := 160 |}.

Definition two_jobs : Database :=
  {| generation_jobs := [pending_job; second_job]; id_seq := 3 |}.

(** A chat answer in which an ideographic space, U+3000 (bytes E3 80 80),
    follows the URL, and a URL with a letter whose second byte is A0
    (U+00E0, bytes C3 A0). *)
Definition wide_space : string :=
  String "227"%char (String "128"%char (String "128"%char EmptyString)).

Definition answer_with_wide_space : string :=
  "Here: https://cdn.example/a.png" ++ wide_space ++ "(enjoy)".

Definition url_with_accent : string :=
  "https://cdn.example/" ++ String "195"%char (String "160"%char ".png").

(** Two calls: create a job, then mark it completed without a key. *)
Definition complete_without_key : list call :=
  [Create 7%N 100 swap_background; UpdateStatus 7%N 200 COMPLETED None].

(** Three calls of the smoke script's shape: create, processing, completed
    with the key. *)
Definition create_process_complete : list call :=
  [Create 7%N 100 swap_background;
   UpdateStatus 7%N 150 PROCESSING None;
   UpdateStatus 7%N 200 COMPLETED (Some "u/1/generated.png")].

End samples.

(* ===================================================================== *)
(** * Part II: properties *)
(* ===================================================================== *)

(** ** The job repository *)

Section RepositoryFacts.
Import models crud_job.

Lemma JobStatus_eqb_eq (a b : JobStatus) : JobStatus_eqb a b = true <-> a = b.
Proof.
  destruct a, b; simpl; split; intro H; try reflexivity; discriminate H.
Qed.

Lemma option_status_eqb_eq (x y : option JobStatus) :
  option_eqb JobStatus_eqb x y = true -> x = y.
Proof.
  destruct x as [a|], y as [b|]; simpl; intro H; try discriminate H; auto.
  apply JobStatus_eqb_eq in H. now subst.
Qed.

Lemma option_string_eqb_eq (x y : option string) :
  option_eqb String.eqb x y = true -> x = y.
Proof.
  destruct x as [a|], y as [b|]; simpl; intro H; try discriminate H; auto.
  apply String.eqb_eq in H. now subst.
Qed.

(** Whether or not the UPDATE is emitted, the row read back carries the
    object's status and key and the stored values of every other column
    but [updated_at]. *)
Lemma update_row_columns (now : DateTime) (row obj : GenerationJob) :
  let r := update_row now row obj in
  status r = status obj /\
  generated_image_key r = generated_image_key obj /\
  id r = id row /\ uuid r = uuid row /\ prompt r = prompt row /\
  initial_image_key r = initial_image_key row /\
  reference_image_key r = reference_image_key row /\
  created_at r = created_at row.
Proof.
  unfold update_row, dirty.
  destruct (option_eqb JobStatus_eqb (status row) (status obj)) eqn:Hs;
    destruct (option_eqb String.eqb (generated_image_key row)
                         (generated_image_key obj)) eqn:Hk;
    simpl; repeat split; auto using option_status_eqb_eq, option_string_eqb_eq.
Qed.

Lemma find_last {A : Type} (f : A -> bool) (l : list A) (x : A) :
  find f l = None -> f x = true -> find f (l ++ [x]) = Some x.
Proof.
  induction l as [|a l IH]; simpl; intros Hl Hx.
  - now rewrite Hx.
  - destruct (f a); [discriminate Hl | auto].
Qed.

(** The row stored under the primary key is the one the commit rewrites. *)
Lemma write_row_persistent (now : DateTime) (obj row : GenerationJob)
      (rows : list GenerationJob) :
  find (fun r => Z.eqb (id r) (id obj)) rows = Some row ->
  exists rows', write_row now obj rows = Some (rows', update_row now row obj).
Proof.
  induction rows as [|r rows IH]; simpl; intro H; [discriminate H|].
  destruct (Z.eqb (id r) (id obj)).
  - injection H as ->. eauto.
  - destruct (IH H) as [rows' ->]. eauto.
Qed.

(** Under a unique primary key, the job found by its uuid is the row
    stored under its own key. *)
Lemma found_is_persistent (db : Database) (job_uuid : UUID) (job : GenerationJob) :
  primary_key_unique db ->
  get_job_by_uuid db job_uuid = Some job ->
  persistent db job.
Proof.
  unfold primary_key_unique, get_job_by_uuid, persistent.
  induction (generation_jobs db) as [|r rows IH]; simpl; intros Hnd H;
    [discriminate H|].
  inversion Hnd as [|? ? Hnotin Hnd']; subst.
  destruct (N.eqb (uuid r) job_uuid).
  - injection H as ->. now rewrite Z.eqb_refl.
  - destruct (Z.eqb (id r) (id job)) eqn:E.
    + apply Z.eqb_eq in E. exfalso. apply Hnotin. rewrite E.
      apply in_map. apply find_some in H. tauto.
    + auto.
Qed.

(** Rewriting the job found by [job_uuid] keeps it the job found by
    [job_uuid]. *)
Lemma write_row_found (now : DateTime) (obj job : GenerationJob) (job_uuid : UUID)
      (rows : list GenerationJob) :
  NoDup (map id rows) ->
  find (fun r => N.eqb (uuid r) job_uuid) rows = Some job ->
  id obj = id job ->
  exists rows',
    write_row now obj rows = Some (rows', update_row now job obj) /\
    find (fun r => N.eqb (uuid r) job_uuid) rows' = Some (update_row now job obj).
Proof.
  intros Hnd Hfind Hid.
  induction rows as [|r rows IH]; simpl in *; [discriminate Hfind|].
  inversion Hnd as [|? ? Hnotin Hnd']; subst.
  destruct (N.eqb (uuid r) job_uuid) eqn:Eu.
  - injection Hfind as ->. rewrite Hid, Z.eqb_refl.
    eexists; split; [reflexivity|]. simpl.
    destruct (update_row_columns now job obj) as (_ & _ & _ & -> & _).
    now rewrite Eu.
  - destruct (Z.eqb (id r) (id obj)) eqn:E.
    + apply Z.eqb_eq in E. exfalso. apply Hnotin. rewrite E, Hid.
      apply in_map. apply find_some in Hfind. tauto.
    + destruct (IH Hnd' Hfind) as (rows' & -> & Hf).
      eexists; split; [reflexivity|]. simpl. now rewrite Eu.
Qed.

(** The commit rewrites the row stored under the object's primary key where
    it stands, and no other row: the table afterwards is the table before with
    that one row replaced by the row read back. *)
Lemma write_row_in_place (now : DateTime) (obj row : GenerationJob)
      (rows : list GenerationJob) :
  find (fun r => Z.eqb (id r) (id obj)) rows = Some row ->
  exists before after : list GenerationJob,
    rows = (before ++ row :: after)%list /\
    write_row now obj rows
    = Some ((before ++ update_row now row obj :: after)%list, update_row now row obj) /\
    find (fun r => Z.eqb (id r) (id obj)) (before ++ update_row now row obj :: after)%list
    = Some (update_row now row obj).
Proof.
  induction rows as [|r rows IH]; simpl; intro H; [discriminate H|].
  destruct (Z.eqb (id r) (id obj)) eqn:E.
  - injection H as ->. exists [], rows. simpl. repeat split.
    destruct (update_row_columns now row obj) as (_ & _ & -> & _).
    now rewrite E.
  - destruct (IH H) as (before & after & Hrows & Hw & Hf).
    exists (r :: before), after. simpl. rewrite Hw, E.
    repeat split; [now rewrite Hrows | exact Hf].
Qed.

Lemma write_row_Forall (P : GenerationJob -> Prop) (now : DateTime)
      (obj stored : GenerationJob) (rows rows' : list GenerationJob) :
  (forall row, P (update_row now row obj)) ->
  write_row now obj rows = Some (rows', stored) ->
  Forall P rows -> Forall P rows'.
Proof.
  intro HP. revert rows'.
  induction rows as [|r rows IH]; simpl; intros rows' H HF; [discriminate H|].
  inversion HF; subst.
  destruct (Z.eqb (id r) (id obj)).
  - injection H as <- _. constructor; auto.
  - destruct (write_row now obj rows) as [[rest' s]|]; [|discriminate H].
    injection H as <- <-. constructor; auto.
Qed.

End RepositoryFacts.

(** ** Claims on the job repository *)

Section RepositoryClaims.
Import models crud_job.
Local Open Scope Z_scope.

(** C8: for every creation input, creating a job (under a uuid no stored job
    has yet, as [uuid4] provides) and then fetching it by its uuid returns
    that job, with status [PENDING] and [generated_image_key] unset. *)
Theorem create_job_then_get (db : Database) (new_uuid : UUID) (now : DateTime)
        (job_in : schemas.JobCreate) :
  get_job_by_uuid db new_uuid = None ->
  exists db' job,
    create_job db new_uuid now job_in = Returned (db', job) /\
    get_job_by_uuid db' (uuid job) = Some job /\
    status job = Some PENDING /\
    generated_image_key job = None.
Proof.
  intro Hfresh. unfold create_job. rewrite Hfresh.
  eexists; eexists; split; [reflexivity|].
  repeat split.
  unfold get_job_by_uuid in *; simpl.
  apply find_last; [exact Hfresh | simpl; apply N.eqb_refl].
Qed.

Lemma create_job_then_get_witness :
  exists db' job,
    create_job empty_db 7%N 100 samples.swap_background = Returned (db', job) /\
    get_job_by_uuid db' (uuid job) = Some job /\
    status job = Some PENDING /\
    generated_image_key job = None.
Proof.
  apply (create_job_then_get empty_db 7%N 100 samples.swap_background).
  reflexivity.
Defined.

(** What [update_job] leaves in the object before the commit. *)
Lemma setattr_update_data (db_job : GenerationJob) (job_in : schemas.JobUpdate) :
  let obj := fold_left setattr (schemas.model_dump_exclude_unset job_in) db_job in
  status obj = match schemas.status job_in with
               | schemas.Passed v => v
               | schemas.Unset => status db_job
               end /\
  generated_image_key obj = match schemas.generated_image_key job_in with
                            | schemas.Passed v => v
                            | schemas.Unset => generated_image_key db_job
                            end /\
  id obj = id db_job.
Proof.
  destruct job_in as [[|s] [|k]]; simpl; auto.
Qed.

(** C9: [update_job] applies exactly the fields that were passed, to the
    stored job: the call commits, the job it returns is the row now stored
    under the job's primary key, the table is the table before with that one
    row replaced, and the sequence is as it was.  In that row a passed field
    has the passed value, a field left unset keeps its stored value, and no
    other column but [updated_at] changes; so with no field passed the job
    comes back, and is stored, with every field but possibly [updated_at]
    unchanged. *)
Theorem update_job_applies_passed_fields_only (db : Database) (now : DateTime)
        (db_job : GenerationJob) (job_in : schemas.JobUpdate) :
  persistent db db_job ->
  exists db' job',
    update_job db now db_job job_in = Returned (db', job') /\
    persistent db' job' /\
    (exists before after : list GenerationJob,
        generation_jobs db = (before ++ db_job :: after)%list /\
        generation_jobs db' = (before ++ job' :: after)%list) /\
    id_seq db' = id_seq db /\
    status job' = match schemas.status job_in with
                  | schemas.Passed v => v
                  | schemas.Unset => status db_job
                  end /\
    generated_image_key job' = match schemas.generated_image_key job_in with
                               | schemas.Passed v => v
                               | schemas.Unset => generated_image_key db_job
                               end /\
    id job' = id db_job /\ uuid job' = uuid db_job /\
    prompt job' = prompt db_job /\
    initial_image_key job' = initial_image_key db_job /\
    reference_image_key job' = reference_image_key db_job /\
    created_at job' = created_at db_job /\
    (job_in = schemas.mkJobUpdate schemas.Unset schemas.Unset ->
     status job' = status db_job /\
     generated_image_key job' = generated_image_key db_job).
Proof.
  unfold persistent, update_job, commit_and_refresh. intro Hp.
  destruct (setattr_update_data db_job job_in) as (Hs & Hk & Hid).
  set (obj := fold_left setattr (schemas.model_dump_exclude_unset job_in) db_job) in *.
  rewrite <- Hid in Hp.
  destruct (write_row_in_place now obj db_job _ Hp)
    as (before & after & Hrows & -> & Hstored).
  destruct (update_row_columns now db_job obj)
    as (Hs' & Hk' & Hid' & ? & ? & ? & ? & ?).
  eexists; eexists; split; [reflexivity|]. simpl.
  split; [now rewrite Hid', <- Hid|].
  split; [now exists before, after|].
  rewrite Hs', Hk', Hs, Hk. repeat split; auto; subst job_in; reflexivity.
Qed.

Lemma update_job_applies_passed_fields_only_witness :
  exists db' job',
    update_job samples.one_pending 200 samples.pending_job
               (schemas.mkJobUpdate (schemas.Passed (Some PROCESSING)) schemas.Unset)
    = Returned (db', job') /\
    persistent db' job' /\
    generation_jobs db' = [job'] /\
    status job' = Some PROCESSING /\ generated_image_key job' = None.
Proof.
  destruct (update_job_applies_passed_fields_only
              samples.one_pending 200 samples.pending_job
              (schemas.mkJobUpdate (schemas.Passed (Some PROCESSING)) schemas.Unset))
    as (db' & job' & H & Hp & _ & _ & Hs & Hk & _).
  - reflexivity.
  - exists db', job'. repeat split; try assumption.
    injection H as <- <-. reflexivity.
Defined.

(** What [update_job_status] commits for a stored job. *)
Lemma update_job_status_found (db : Database) (now : DateTime) (job_uuid : UUID)
      (new_status : JobStatus) (generated_key : option string) (job : GenerationJob) :
  primary_key_unique db ->
  get_job_by_uuid db job_uuid = Some job ->
  exists db' job',
    update_job_status db now job_uuid new_status generated_key
    = Returned (db', Some job') /\
    get_job_by_uuid db' job_uuid = Some job' /\
    status job' = Some new_status /\
    generated_image_key job' = match generated_key with
                               | Some key => Some key
                               | None => generated_image_key job
                               end /\
    id job' = id job /\ uuid job' = uuid job /\ prompt job' = prompt job /\
    initial_image_key job' = initial_image_key job /\
    reference_image_key job' = reference_image_key job /\
    created_at job' = created_at job.
Proof.
  intros Hpk Hget. unfold update_job_status, commit_and_refresh. rewrite Hget.
  set (obj := match generated_key with
              | Some key =>
                  setattr (setattr job (schemas.status_item (Some new_status)))
                          (schemas.generated_image_key_item (Some key))
              | None => setattr job (schemas.status_item (Some new_status))
              end).
  assert (Hobj : id obj = id job /\ status obj = Some new_status /\
                 generated_image_key obj = match generated_key with
                                           | Some key => Some key
                                           | None => generated_image_key job
                                           end)
    by (subst obj; destruct generated_key; simpl; auto).
  destruct Hobj as (Hid & Hs & Hk).
  destruct (write_row_found now obj job job_uuid (generation_jobs db) Hpk Hget Hid)
    as (rows' & -> & Hfound).
  destruct (update_row_columns now job obj)
    as (Hs' & Hk' & ? & ? & ? & ? & ? & ?).
  eexists; eexists; split; [reflexivity|].
  rewrite Hs', Hk', Hs, Hk. repeat split; auto.
Qed.

(** C10: [update_job_status] called without a generated key changes the
    job's status and nothing else but [updated_at]: the stored
    [generated_image_key] is kept as it is; and whatever key is passed, [id],
    [uuid], [prompt], [initial_image_key] and [reference_image_key] are
    unchanged.  So marking a job [FAILED] after its key was set leaves the key
    in place. *)
Theorem update_job_status_keeps_other_fields (db : Database) (now : DateTime)
        (job_uuid : UUID) (new_status : JobStatus) (generated_key : option string)
        (job : GenerationJob) :
  primary_key_unique db ->
  get_job_by_uuid db job_uuid = Some job ->
  exists db' job',
    update_job_status db now job_uuid new_status generated_key
    = Returned (db', Some job') /\
    get_job_by_uuid db' job_uuid = Some job' /\
    status job' = Some new_status /\
    id job' = id job /\ uuid job' = uuid job /\ prompt job' = prompt job /\
    initial_image_key job' = initial_image_key job /\
    reference_image_key job' = reference_image_key job /\
    created_at job' = created_at job /\
    (generated_key = None -> generated_image_key job' = generated_image_key job).
Proof.
  intros Hpk Hget.
  destruct (update_job_status_found db now job_uuid new_status generated_key job
                                    Hpk Hget)
    as (db' & job' & H & Hg & Hs & Hk & Hrest).
  exists db', job'. repeat split; try tauto.
  intros ->. exact Hk.
Qed.

Lemma update_job_status_keeps_other_fields_witness :
  exists db' job',
    update_job_status samples.one_completed 300 7%N FAILED None
    = Returned (db', Some job') /\
    status job' = Some FAILED /\
    generated_image_key job' = Some "u/1/generated.png".
Proof.
  destruct (update_job_status_keeps_other_fields
              samples.one_completed 300 7%N FAILED None samples.completed_job)
    as (db' & job' & H & _ & Hs & _ & _ & _ & _ & _ & _ & Hk).
  - repeat constructor; simpl; tauto.
  - reflexivity.
  - exists db', job'. repeat split; auto.
Defined.



(** The equivalence looks at the status and the key only, so the row read
    back satisfies it as soon as the committed object does. *)
Lemma completed_iff_key_update_row (now : DateTime) (row obj : GenerationJob) :
  completed_iff_key obj = true ->
  completed_iff_key (update_row now row obj) = true.
Proof.
  destruct (update_row_columns now row obj) as (Hs & Hk & _).
  unfold completed_iff_key, is_completed, has_generated_key.
  now rewrite Hs, Hk.
Qed.

Lemma completed_iff_key_commit (db db' : Database) (now : DateTime)
      (obj stored : GenerationJob) :
  completed_iff_key obj = true ->
  commit_and_refresh db now obj = Returned (db', stored) ->
  Forall (fun job => completed_iff_key job = true) (generation_jobs db) ->
  Forall (fun job => completed_iff_key job = true) (generation_jobs db').
Proof.
  unfold commit_and_refresh. intros Hobj H HF.
  destruct (write_row now obj (generation_jobs db)) as [[rows' s]|] eqn:E;
    [|discriminate H].
  injection H as <- <-. simpl.
  eapply write_row_Forall; [|exact E|exact HF].
  intro row. now apply completed_iff_key_update_row.
Qed.

(** One call that keeps status and key together keeps the equivalence on
    every stored job. *)
Lemma run_keeps_completed_iff_key (db : Database) (c : call) :
  keeps_key_with_status db c = true ->
  Forall (fun job => completed_iff_key job = true) (generation_jobs db) ->
  Forall (fun job => completed_iff_key job = true) (generation_jobs (run db c)).
Proof.
  intros Hc HF. destruct c as [u now job_in|u now job_in|u now st key|u]; simpl in *.
  - unfold create_job. destruct (get_job_by_uuid db u); [exact HF|]. simpl.
    apply Forall_app. split; [exact HF|]. repeat constructor.
  - destruct (get_job_by_uuid db u) as [db_job|] eqn:Hget; [|exact HF].
    destruct (update_job db now db_job job_in) as [[db' stored]| |] eqn:E;
      try exact HF.
    unfold update_job in E.
    eapply completed_iff_key_commit; [|exact E|exact HF].
    assert (Hin : completed_iff_key db_job = true).
    { apply find_some in Hget. rewrite Forall_forall in HF. apply HF. tauto. }
    destruct job_in as [[|[[]|]] [|[k|]]]; simpl in *;
      try discriminate Hc; try reflexivity; exact Hin.
  - unfold update_job_status.
    destruct (get_job_by_uuid db u) as [job|] eqn:Hget; [|exact HF].
    match goal with
    | |- context [commit_and_refresh db now ?o] =>
        destruct (commit_and_refresh db now o) as [[db' stored]| |] eqn:E
    end; try exact HF.
    eapply completed_iff_key_commit; [|exact E|exact HF].
    assert (Hin : completed_iff_key job = true).
    { apply find_some in Hget. rewrite Forall_forall in HF. apply HF. tauto. }
    unfold completed_iff_key, is_completed, has_generated_key in *.
    destruct st, key; simpl in *; try discriminate Hc; try reflexivity;
      destruct (option_eqb JobStatus_eqb (status job) (Some COMPLETED));
      try discriminate Hc;
      destruct (generated_image_key job); try discriminate Hin; reflexivity.
  - unfold delete_job. destruct (get_job_by_uuid db u); [|exact HF]. simpl.
    rewrite Forall_forall in *. intros x Hx. apply filter_In in Hx. apply HF. tauto.
Qed.

Lemma run_all_keeps_completed_iff_key (calls : list call) (db : Database) :
  all_keep_key_with_status db calls = true ->
  Forall (fun job => completed_iff_key job = true) (generation_jobs db) ->
  Forall (fun job => completed_iff_key job = true)
         (generation_jobs (run_all db calls)).
Proof.
  revert db. induction calls as [|c calls IH]; simpl; intros db Hc HF; [exact HF|].
  apply andb_prop in Hc. destruct Hc as [Hc Hrest].
  apply IH; [exact Hrest|]. now apply run_keeps_completed_iff_key.
Qed.

(** C2, as stated, fails: two repository calls from the empty table store a
    job that is [COMPLETED] with no generated key. *)
Lemma completed_without_key_is_reachable :
  ~ (forall (calls : list call) (job : GenerationJob),
        In job (generation_jobs (run_all empty_db calls)) ->
        (status job = Some COMPLETED <-> generated_image_key job <> None)).
Proof.
  intro H.
  destruct (fun Hin => H samples.complete_without_key
              {| id := 1; uuid := 7%N; prompt := "swap background";
                 status := Some COMPLETED;
                 initial_image_key := "u/1/initial.jpg";
                 reference_image_key := None;
                 generated_image_key := None;
                 created_at := 100; updated_at := 200 |} Hin) as [Hkey _].
  - left. reflexivity.
  - apply Hkey; reflexivity.
Qed.

(** C2, amended: the repository does not tie the key to the status, its
    callers do.  A job is created [PENDING] without a key, and along every
    sequence of calls that keep status and key together (see
    [keeps_key_with_status]) every stored job has status [COMPLETED] exactly
    when its [generated_image_key] is set. *)
Theorem completed_iff_key_for_coherent_calls (calls : list call) :
  all_keep_key_with_status empty_db calls = true ->
  forall job : GenerationJob,
    In job (generation_jobs (run_all empty_db calls)) ->
    (status job = Some COMPLETED <-> generated_image_key job <> None).
Proof.
  intros Hc job Hin.
  pose proof (run_all_keeps_completed_iff_key calls empty_db Hc (Forall_nil _)) as HF.
  rewrite Forall_forall in HF. specialize (HF job Hin).
  unfold completed_iff_key, is_completed, has_generated_key in HF.
  destruct (status job) as [[]|], (generated_image_key job); simpl in HF;
    try discriminate HF; split; intro H; try reflexivity; try discriminate H;
    try congruence.
Qed.

Lemma completed_iff_key_for_coherent_calls_witness :
  In samples.completed_job
     (generation_jobs (run_all empty_db samples.create_process_complete)) /\
  (status samples.completed_job = Some COMPLETED
   <-> generated_image_key samples.completed_job <> None).
Proof.
  assert (Hin : In samples.completed_job
                   (generation_jobs (run_all empty_db samples.create_process_complete)))
    by (left; reflexivity).
  split; [exact Hin|].
  apply (completed_iff_key_for_coherent_calls samples.create_process_complete);
    [reflexivity | exact Hin].
Defined.


End RepositoryClaims.

(** ** Claims on the upstream image client *)

Section UpstreamClaims.
Import openrouter_service.
Local Open Scope Z_scope.

Context {Env : Type}.
Variable requests_get : string -> Env -> option Response * Env.
Variable chat_completions_create :
  ChatRequest -> Env -> api_outcome ChatCompletion * Env.
Variable responses_create : ResponsesRequest -> Env -> api_outcome value * Env.
Variable wait : nat -> Env -> Env.
Variable b64decode : string -> option bytes.

(** C7, as stated, fails: an initial URL that is given but empty gets no
    image-reference part. *)
Lemma empty_initial_url_gets_no_part :
  _build_messages "swap background" (Some "") None
  <> spec.single_user_message "swap background" (Some "") None.
Proof.
  discriminate.
Qed.

(** C7, amended: for every prompt and every initial and reference URL, the
    primary request is a single user message whose content is exactly, in
    order, a text part with the prompt, an image-reference part for the
    initial URL when it is given and not empty, and one for the reference URL
    when it is given and not empty. *)
Theorem build_messages_text_initial_reference
        (prompt : string) (initial_url reference_url : option string) :
  _build_messages prompt initial_url reference_url
  = spec.single_user_message prompt
      (spec.given_and_not_empty initial_url)
      (spec.given_and_not_empty reference_url).
Proof.
  destruct initial_url as [[|a i]|], reference_url as [[|b r]|]; reflexivity.
Qed.

(** C6: when the GET of an image URL comes back with a status, 429 and every
    5xx raise [UpstreamUnavailable], every other status from 400 up raises
    [ImageGenerationError], and a status below 400 returns the body. *)
Theorem fetch_bytes_from_url_by_status (url : string) (w : World)
        (resp : Response) (e : Env) :
  requests_get url (env w) = (Some resp, e) ->
  let w' := {| env := e; log := log w ++ [RequestsGet url] |} in
  let code := status_code resp in
  (code = 429 \/ 500 <= code < 600 ->
   _fetch_bytes_from_url requests_get url w
   = (Raise (UpstreamUnavailable ("Upstream URL fetch failed: " ++ str code)), w')) /\
  (400 <= code -> code <> 429 -> ~ 500 <= code < 600 ->
   _fetch_bytes_from_url requests_get url w
   = (Raise (ImageGenerationError ("Failed to fetch image URL: " ++ str code)), w')) /\
  (code < 400 ->
   _fetch_bytes_from_url requests_get url w = (Return (resp_content resp), w')).
Proof.
  intros Hget w' code.
  unfold _fetch_bytes_from_url, bind, do_requests_get. rewrite Hget. fold w' code.
  destruct (code =? 429) eqn:E429; destruct (500 <=? code) eqn:E500;
    destruct (code <? 600) eqn:E600; destruct (400 <=? code) eqn:E400; simpl;
    repeat split; intros; try reflexivity; exfalso; lia.
Qed.

(** The scan of the parts catches every exception, so it returns. *)
Lemma extract_bytes_from_parts_returns (parts : list value) (w : World) :
  exists found w',
    _extract_bytes_from_parts requests_get b64decode parts w = (Return found, w').
Proof.
  revert w. induction parts as [|part rest IH]; intro w; simpl.
  - eauto.
  - destruct (_extract_bytes_from_part requests_get b64decode part w) as [[data|e] w1].
    + destruct (truthy_bytes data); eauto.
    + apply IH.
Qed.


(** *** What the calls add to the log *)

Lemma later_refl (w : @World Env) : later w w.
Proof.
  exists []. now rewrite app_nil_r.
Qed.

Lemma later_trans (w1 w2 w3 : @World Env) : later w1 w2 -> later w2 w3 -> later w1 w3.
Proof.
  intros [e1 H1] [e2 H2]. exists (e1 ++ e2)%list. now rewrite H2, H1, app_assoc.
Qed.

Lemma decode_b64_later (data_b64 : value) (w : @World Env) :
  later w (snd (_decode_b64 b64decode data_b64 w)).
Proof.
  destruct data_b64; simpl; try apply later_refl.
  destruct (b64decode s); apply later_refl.
Qed.

Lemma fetch_bytes_from_later (url : value) (w : World) :
  later w (snd (fetch_bytes_from requests_get url w)).
Proof.
  destruct url; simpl; try apply later_refl.
  unfold _fetch_bytes_from_url, bind, do_requests_get.
  destruct (requests_get s (env w)) as [[resp|] e]; simpl.
  - destruct ((status_code resp =? 429)
              || (500 <=? status_code resp) && (status_code resp <? 600));
      [|destruct (400 <=? status_code resp)]; simpl; eexists; reflexivity.
  - eexists; reflexivity.
Qed.

Lemma or_none_later (c : @M Env bytes) (w : World) :
  later w (snd (c w)) -> later w (snd (or_none c w)).
Proof.
  unfold or_none. destruct (c w) as [[data|e] w']; auto.
Qed.

Lemma deep_find_image_payload_later (obj : value) :
  forall w : World,
    later w (snd (_deep_find_image_payload requests_get b64decode obj w)).
Proof.
  induction obj as [| | | |l IH|items IH] using value_ind; intro w;
    try apply later_refl.
  - simpl. revert w. induction IH as [|x rest Hx _ IHrest]; intro w.
    + apply later_refl.
    + specialize (Hx w).
      destruct (_deep_find_image_payload requests_get b64decode x w) as [found w'].
      destruct (truthy_bytes found); [exact Hx|].
      eapply later_trans; [exact Hx | apply IHrest].
  - simpl.
    destruct (truthy (dict_get items "b64_json"));
      [apply or_none_later, decode_b64_later|].
    match goal with
    | |- context [if truthy ?u then _ else _] => destruct (truthy u) eqn:Hu
    end; [apply or_none_later, fetch_bytes_from_later|].
    clear Hu. revert w. induction IH as [|[k x] rest Hx _ IHrest]; intro w.
    + apply later_refl.
    + specialize (Hx w). simpl in Hx.
      destruct (_deep_find_image_payload requests_get b64decode x w) as [found w'].
      destruct (truthy_bytes found); [exact Hx|].
      eapply later_trans; [exact Hx | apply IHrest].
Qed.

(** The fallback begins with the request to the responses API. *)
Lemma responses_fallback_issues_request
      (client : OpenAI) (model prompt : string)
      (initial_url reference_url : option string)
      (extra_body : option (list (string * value))) (w : World) :
  let req := responses_request client model prompt initial_url reference_url
                               extra_body in
  later {| env := snd (responses_create req (env w));
           log := log w ++ [ResponsesCreate req] |}
        (snd (_responses_fallback requests_get responses_create b64decode
                                  client model prompt initial_url reference_url
                                  extra_body w)).
Proof.
  intro req. unfold _responses_fallback, do_responses_create. fold req.
  destruct (responses_create req (env w)) as [[data2| |] e]; cbn [snd];
    try apply later_refl.
  pose proof (deep_find_image_payload_later
                data2 {| env := e; log := log w ++ [ResponsesCreate req] |}) as H.
  revert H.
  destruct data2; try (intros _; apply later_refl);
    destruct (_deep_find_image_payload requests_get b64decode _ _);
    intro H; exact H.
Qed.

(** *** One call of [generate_image] *)

Variable settings_OPENROUTER_API_KEY : string.
Variables (prompt : string) (initial_url reference_url api_key : option string)
          (model : string) (http_referer x_title : option string)
          (extra_body : option (list (string * value))).

Local Abbreviation attempt :=
  (_sync_request_and_extract_bytes
     requests_get chat_completions_create responses_create b64decode
     settings_OPENROUTER_API_KEY prompt initial_url reference_url api_key model
     http_referer x_title extra_body).

Local Abbreviation generate :=
  (generate_image
     requests_get chat_completions_create responses_create wait b64decode
     settings_OPENROUTER_API_KEY prompt initial_url reference_url api_key model
     http_referer x_title extra_body).

(** The decorated function, attempt by attempt: at most three attempts; an
    attempt that returns, or raises anything but [UpstreamUnavailable], ends
    the call with that very outcome; a third [UpstreamUnavailable] ends it
    with [RetryError]. *)
Lemma generate_image_attempts (w0 : World) :
  generate w0 =
  match attempt w0 with
  | (Raise (UpstreamUnavailable _), w1) =>
      match attempt (do_sleep wait 1 w1) with
      | (Raise (UpstreamUnavailable _), w2) =>
          match attempt (do_sleep wait 2 w2) with
          | (Raise (UpstreamUnavailable m3), w3) =>
              (Raise (RetryError (UpstreamUnavailable m3)), w3)
          | third => third
          end
      | second => second
      end
  | first => first
  end.
Proof.
  unfold generate_image, retry. simpl.
  destruct (attempt w0) as [[a|[m|m|e|n]] w1]; simpl; try reflexivity.
  destruct (attempt (do_sleep wait 1 w1)) as [[a|[m'|m'|e|n]] w2]; simpl;
    try reflexivity.
  destruct (attempt (do_sleep wait 2 w2)) as [[a|[m''|m''|e|n]] w3]; simpl;
    reflexivity.
Qed.

(** An attempt that raises [ImageGenerationError] ends the call at once with
    that error: no sleep, no further attempt. *)
Lemma generate_image_does_not_retry_actionable (w0 w1 : World) (msg : string) :
  attempt w0 = (Raise (ImageGenerationError msg), w1) ->
  generate w0 = (Raise (ImageGenerationError msg), w1).
Proof.
  intro H. rewrite generate_image_attempts, H. reflexivity.
Qed.

(** Two [UpstreamUnavailable] and then a payload: the third attempt's bytes
    are returned. *)
Lemma generate_image_succeeds_on_third_attempt
      (w0 w1 w2 w3 : World) (m1 m2 : string) (data : bytes) :
  attempt w0 = (Raise (UpstreamUnavailable m1), w1) ->
  attempt (do_sleep wait 1 w1) = (Raise (UpstreamUnavailable m2), w2) ->
  attempt (do_sleep wait 2 w2) = (Return data, w3) ->
  generate w0 = (Return data, w3).
Proof.
  intros H1 H2 H3. rewrite generate_image_attempts, H1, H2, H3. reflexivity.
Qed.

(** With [reraise=True] the decorator would raise the last attempt's
    [UpstreamUnavailable] itself. *)
Lemma retry_with_reraise_raises_last_attempt
      (w0 w1 w2 w3 : World) (m1 m2 m3 : string) :
  attempt w0 = (Raise (UpstreamUnavailable m1), w1) ->
  attempt (do_sleep wait 1 w1) = (Raise (UpstreamUnavailable m2), w2) ->
  attempt (do_sleep wait 2 w2) = (Raise (UpstreamUnavailable m3), w3) ->
  retry wait 3 is_UpstreamUnavailable true attempt w0
  = (Raise (UpstreamUnavailable m3), w3).
Proof.
  intros H1 H2 H3. unfold retry. simpl. rewrite H1. simpl. rewrite H2. simpl.
  rewrite H3. reflexivity.
Qed.

(** C1, where the code departs from the claim: when all three attempts raise
    [UpstreamUnavailable], the call raises [RetryError] wrapped around the
    last one, which is not an [UpstreamUnavailable]. *)
Theorem generate_image_exhausted_raises_RetryError
        (w0 w1 w2 w3 : World) (m1 m2 m3 : string) :
  attempt w0 = (Raise (UpstreamUnavailable m1), w1) ->
  attempt (do_sleep wait 1 w1) = (Raise (UpstreamUnavailable m2), w2) ->
  attempt (do_sleep wait 2 w2) = (Raise (UpstreamUnavailable m3), w3) ->
  generate w0 = (Raise (RetryError (UpstreamUnavailable m3)), w3) /\
  is_UpstreamUnavailable (RetryError (UpstreamUnavailable m3)) = false.
Proof.
  intros H1 H2 H3. rewrite generate_image_attempts, H1, H2, H3. split; reflexivity.
Qed.

(** *** The fallback inside one attempt *)

Local Abbreviation client :=
  (mkOpenAI "https://openrouter.ai/api/v1" (key settings_OPENROUTER_API_KEY api_key)).

Local Abbreviation the_chat_request :=
  (chat_request client model (messages prompt initial_url reference_url)
                http_referer x_title extra_body).

Local Abbreviation the_responses_request :=
  (responses_request client model prompt initial_url reference_url extra_body).

Local Abbreviation fallback :=
  (_responses_fallback requests_get responses_create b64decode
                       client model prompt initial_url reference_url extra_body).

(** What the attempt does with a content that is not text: the scan of the
    parts when it is a list, nothing otherwise. *)
Local Abbreviation scan c :=
  (match c with
   | VList parts => _extract_bytes_from_parts requests_get b64decode parts
   | _ => ret None
   end).

Lemma scan_returns (c : value) (w : World) :
  exists found w', scan c w = (Return found, w').
Proof.
  destruct c; try (eexists; eexists; reflexivity).
  apply extract_bytes_from_parts_returns.
Qed.

Lemma responses_fallback_raises (w w' : World) (e : exn) :
  fallback w = (Raise e, w') ->
  e = ImageGenerationError "Model not available for image output" \/
  e = UpstreamUnavailable "OpenRouter responses call failed".
Proof.
  unfold _responses_fallback.
  destruct (do_responses_create responses_create the_responses_request w)
    as [[data2| |] w1]; intro H.
  - destruct data2; try discriminate H;
      destruct (_deep_find_image_payload requests_get b64decode _ _);
      discriminate H.
  - left. congruence.
  - right. congruence.
Qed.

(** After a primary answer whose content is not text and yields no payload,
    the attempt is the fallback call and what it finds. *)
Lemma attempt_falls_back (w : World) (resp : ChatCompletion) (e1 : Env)
      (choice : Choice) (found : option bytes) (w2 : World) :
  chat_completions_create the_chat_request (env w) = (Responded resp, e1) ->
  nth_error (choices resp) 0 = Some choice ->
  (forall text, content (message choice) <> VStr text) ->
  scan (content (message choice))
       {| env := e1; log := log w ++ [ChatCompletionsCreate the_chat_request] |}
  = (Return found, w2) ->
  truthy_bytes found = false ->
  attempt w =
  match fallback w2 with
  | (Return (Some (b :: data)), w3) => (Return (b :: data), w3)
  | (Return _, w3) =>
      (Raise (ImageGenerationError "Upstream did not include an image payload"), w3)
  | (Raise e, w3) => (Raise e, w3)
  end.
Proof.
  intros Hchat Hnth Hnt Hscan Hnone.
  unfold _sync_request_and_extract_bytes, do_chat_completions_create.
  rewrite Hchat, Hnth.
  destruct (content (message choice)) eqn:Hc;
    try (exfalso; eapply Hnt; reflexivity);
    unfold bind; rewrite Hscan;
    (destruct found as [[|b0 d0]|]; [| discriminate Hnone |]);
    destruct (fallback w2) as [[[[|b' d']|]|e] w3]; reflexivity.
Qed.

(** A payload found in the primary answer is returned without a fallback. *)
Lemma attempt_returns_scanned (w : World) (resp : ChatCompletion) (e1 : Env)
      (choice : Choice) (b0 : Byte.byte) (d0 : bytes) (w2 : World) :
  chat_completions_create the_chat_request (env w) = (Responded resp, e1) ->
  nth_error (choices resp) 0 = Some choice ->
  (forall text, content (message choice) <> VStr text) ->
  scan (content (message choice))
       {| env := e1; log := log w ++ [ChatCompletionsCreate the_chat_request] |}
  = (Return (Some (b0 :: d0)), w2) ->
  attempt w = (Return (b0 :: d0), w2).
Proof.
  intros Hchat Hnth Hnt Hscan.
  unfold _sync_request_and_extract_bytes, do_chat_completions_create.
  rewrite Hchat, Hnth.
  destruct (content (message choice)) eqn:Hc;
    try (exfalso; eapply Hnt; reflexivity);
    unfold bind; rewrite Hscan; reflexivity.
Qed.

(** C3, amended: after a primary answer whose first choice's content is not
    plain text and from which no payload was extracted (a parts list that
    yields none, or a content that is neither text nor a list), the attempt
    issues the fallback request and ends with what the fallback finds, and
    with [ImageGenerationError "Upstream did not include an image payload"]
    when it finds nothing; that error is raised only when both the primary
    answer and the fallback yield nothing.  A plain-text content without a
    URL ends the attempt at once with [ImageGenerationError], with no
    fallback request. *)
Theorem fallback_unless_text_without_url (w : World) :
  (forall (resp : ChatCompletion) (e1 : Env) (choice : Choice),
      chat_completions_create the_chat_request (env w) = (Responded resp, e1) ->
      nth_error (choices resp) 0 = Some choice ->
      let w1 := {| env := e1;
                   log := log w ++ [ChatCompletionsCreate the_chat_request] |} in
      (forall text : string,
          content (message choice) = VStr text ->
          _extract_url_from_text text = None ->
          attempt w
          = (Raise (ImageGenerationError
                      "Upstream returned text content without an image URL"), w1)) /\
      (forall (found : option bytes) (w2 : World),
          (forall text, content (message choice) <> VStr text) ->
          scan (content (message choice)) w1 = (Return found, w2) ->
          truthy_bytes found = false ->
          later {| env := snd (responses_create the_responses_request (env w2));
                   log := log w2 ++ [ResponsesCreate the_responses_request] |}
                (snd (attempt w)) /\
          attempt w =
          match fallback w2 with
          | (Return (Some (b :: data)), w3) => (Return (b :: data), w3)
          | (Return _, w3) =>
              (Raise (ImageGenerationError
                        "Upstream did not include an image payload"), w3)
          | (Raise e, w3) => (Raise e, w3)
          end)) /\
  (forall w' : World,
      attempt w
      = (Raise (ImageGenerationError "Upstream did not include an image payload"), w') ->
      exists (resp : ChatCompletion) (e1 : Env) (choice : Choice)
             (found : option bytes) (w2 : World) (found' : option bytes),
        chat_completions_create the_chat_request (env w) = (Responded resp, e1) /\
        nth_error (choices resp) 0 = Some choice /\
        (forall text, content (message choice) <> VStr text) /\
        scan (content (message choice))
             {| env := e1; log := log w ++ [ChatCompletionsCreate the_chat_request] |}
        = (Return found, w2) /\
        truthy_bytes found = false /\
        fallback w2 = (Return found', w') /\
        truthy_bytes found' = false).
Proof.
  split.
  - intros resp e1 choice Hchat Hnth w1. split.
    + intros text Hc Hurl.
      unfold _sync_request_and_extract_bytes, do_chat_completions_create.
      now rewrite Hchat, Hnth, Hc, Hurl.
    + intros found w2 Hnt Hscan Hnone.
      pose proof (attempt_falls_back w resp e1 choice found w2
                                     Hchat Hnth Hnt Hscan Hnone) as Heq.
      split; [|exact Heq].
      rewrite Heq.
      pose proof (responses_fallback_issues_request
                    client model prompt initial_url reference_url extra_body w2) as Hl.
      cbv zeta in Hl. revert Hl.
      destruct (fallback w2) as [[[[|b' d']|]|e] w3]; intro Hl; exact Hl.
  - intros w' H.
    destruct (chat_completions_create the_chat_request (env w))
      as [[resp| |] e1] eqn:Hchat;
      try (unfold _sync_request_and_extract_bytes, do_chat_completions_create in H;
           rewrite Hchat in H; discriminate H).
    destruct (nth_error (choices resp) 0) as [choice|] eqn:Hnth;
      try (unfold _sync_request_and_extract_bytes, do_chat_completions_create in H;
           rewrite Hchat, Hnth in H; discriminate H).
    destruct (content (message choice)) as [| | |text| |] eqn:Hc.
    4: {
      exfalso.
      unfold _sync_request_and_extract_bytes, do_chat_completions_create in H.
      rewrite Hchat, Hnth, Hc in H.
      destruct (_extract_url_from_text text) as [url|]; [|discriminate H].
      unfold _fetch_bytes_from_url, bind, do_requests_get in H. simpl in H.
      destruct (requests_get url e1) as [[r|] e2]; [|discriminate H].
      destruct ((status_code r =? 429)
                || (500 <=? status_code r) && (status_code r <? 600));
        [discriminate H|].
      destruct (400 <=? status_code r); discriminate H.
    }
    all: assert (Hnt : forall text, content (message choice) <> VStr text)
        by (intro text; rewrite Hc; discriminate).
    all: clear Hc.
    all: destruct (scan_returns
                     (content (message choice))
                     {| env := e1;
                        log := log w ++ [ChatCompletionsCreate the_chat_request] |})
        as (found & w2 & Hscan).
    all: destruct (truthy_bytes found) eqn:Hfound.
    all: try (exfalso;
              destruct found as [[|b0 d0]|]; try discriminate Hfound;
              rewrite (attempt_returns_scanned w resp e1 choice b0 d0 w2
                                               Hchat Hnth Hnt Hscan) in H;
              discriminate H).
    all: rewrite (attempt_falls_back w resp e1 choice found w2
                                     Hchat Hnth Hnt Hscan Hfound) in H.
    all: destruct (fallback w2) as [[found'|e] w3] eqn:Hfb.
    all: try (exfalso; destruct (responses_fallback_raises w2 w3 e Hfb); subst e;
              discriminate H).
    all: exists resp, e1, choice, found, w2, found'.
    all: destruct found' as [[|b' d']|]; try discriminate H.
    all: injection H as <-; repeat split; auto.
Qed.

End UpstreamClaims.

(** ** The claims run against the scripted provider *)

Section UpstreamWitnesses.
Import openrouter_service.
Local Open Scope Z_scope.

Lemma fetch_bytes_from_url_by_status_witness :
  _fetch_bytes_from_url stub.requests_get "https://cdn.example/a.png"
                        (stub.start stub.first_fetch_503)
  = (Raise (UpstreamUnavailable "Upstream URL fetch failed: 503"),
     {| env := {| stub.chat_answers := []; stub.responses_answers := [];
                  stub.get_answers := [stub.http 200 [Byte.x89; Byte.x50]] |};
        log := [RequestsGet "https://cdn.example/a.png"] |}).
Proof.
  apply (fetch_bytes_from_url_by_status
           stub.requests_get "https://cdn.example/a.png"
           (stub.start stub.first_fetch_503)
           {| status_code := 503; resp_content := [] |}
           {| stub.chat_answers := []; stub.responses_answers := [];
              stub.get_answers := [stub.http 200 [Byte.x89; Byte.x50]] |}).
  - reflexivity.
  - right. simpl. lia.
Defined.



Lemma generate_image_exhausted_raises_RetryError_witness :
  fst (stub.run_generate_image stub.always_unavailable "swap background"
                           (Some "https://cdn.example/initial.jpg") None)
  = Raise (RetryError (UpstreamUnavailable "OpenRouter request failed")).
Proof.
  unfold stub.run_generate_image.
  erewrite (proj1 (generate_image_exhausted_raises_RetryError
                     stub.requests_get stub.chat_completions_create
                     stub.responses_create stub.wait stub.b64decode
                     "sk-or-test" "swap background"
                     (Some "https://cdn.example/initial.jpg") None None
                     "google/gemini-2.5-flash-image-preview:free" None None None
                     (stub.start stub.always_unavailable) _ _ _
                     "OpenRouter request failed" "OpenRouter request failed"
                     "OpenRouter request failed" eq_refl eq_refl eq_refl)).
  reflexivity.
Defined.

(** C3, as stated, fails: the provider answers with plain text that holds
    no URL, and the call ends with [ImageGenerationError] after the chat
    request alone; no request goes to the responses API, whose scripted
    answer is still unread. *)
Lemma text_without_url_gets_no_fallback :
  _extract_url_from_text "Sorry, I cannot edit this image." = None /\
  fst (stub.run_generate_image stub.text_without_url "swap background"
                           (Some "https://cdn.example/initial.jpg") None)
  = Raise (ImageGenerationError
             "Upstream returned text content without an image URL") /\
  (forall req : ResponsesRequest,
      ~ In (ResponsesCreate req)
           (log (snd (stub.run_generate_image stub.text_without_url "swap background"
                                          (Some "https://cdn.example/initial.jpg")
                                          None)))) /\
  stub.responses_answers
    (env (snd (stub.run_generate_image stub.text_without_url "swap background"
                                   (Some "https://cdn.example/initial.jpg") None)))
  = [Responded (VDict [("b64_json", VStr "aGk=")])].
Proof.
  repeat split; try reflexivity.
  intros req [H|[]]. discriminate H.
Qed.

Lemma fallback_unless_text_without_url_witness :
  fst (stub.run_attempt
         stub.empty_parts_then_fallback "swap background"
         (Some "https://cdn.example/initial.jpg") None)
  = Return [Byte.x68; Byte.x69].
Proof.
  unfold stub.run_attempt.
  destruct (fallback_unless_text_without_url
              stub.requests_get stub.chat_completions_create
              stub.responses_create stub.b64decode
              "sk-or-test" "swap background"
              (Some "https://cdn.example/initial.jpg") None None
              "google/gemini-2.5-flash-image-preview:free" None None None
              (stub.start stub.empty_parts_then_fallback)) as [H _].
  destruct (H _ _ _ eq_refl eq_refl) as [_ H2].
  destruct (H2 None _ ltac:(intros text Heq; discriminate Heq) eq_refl eq_refl)
    as [_ Heq].
  rewrite Heq. reflexivity.
Defined.

End UpstreamWitnesses.

(* ===================================================================== *)
(** * Part III: further properties of the code *)
(* ===================================================================== *)

(** ** The repository keeps its table well formed *)

Section RepositoryInvariants.
Import models crud_job.
Local Open Scope Z_scope.

Lemma find_none_forall {A : Type} (f : A -> bool) (l : list A) :
  find f l = None -> forall x, In x l -> f x = false.
Proof.
  induction l as [|a l IH]; simpl; intros H x Hx; [contradiction|].
  destruct (f a) eqn:E; [discriminate H|].
  destruct Hx as [<-|Hx]; auto.
Qed.

Lemma write_row_keys (now : DateTime) (obj stored : GenerationJob)
      (rows rows' : list GenerationJob) :
  write_row now obj rows = Some (rows', stored) ->
  map id rows' = map id rows /\ map uuid rows' = map uuid rows.
Proof.
  revert rows'. induction rows as [|r rows IH]; simpl; intros rows' H;
    [discriminate H|].
  destruct (Z.eqb (id r) (id obj)).
  - injection H as <- _. simpl.
    destruct (update_row_columns now r obj) as (_ & _ & -> & -> & _). auto.
  - destruct (write_row now obj rows) as [[rest' s]|]; [|discriminate H].
    injection H as <- <-. simpl. destruct (IH rest' eq_refl) as [-> ->]. auto.
Qed.

(** Deleting rows keeps a column free of repeats. *)
Lemma column_unique_after_delete {K : Type} (column : GenerationJob -> K)
      (keep : GenerationJob -> bool) (rows : list GenerationJob) :
  NoDup (map column rows) -> NoDup (map column (filter keep rows)).
Proof.
  intro Hrows. induction rows as [|row rows IH]; simpl in *; [exact Hrows|].
  apply NoDup_cons_iff in Hrows. destruct Hrows as [Hfresh Hrest].
  destruct (keep row); simpl; [|now apply IH].
  apply NoDup_cons_iff. split; [|now apply IH].
  intro Hin. apply Hfresh.
  apply in_map_iff in Hin. destruct Hin as (other & Hkey & Hother).
  apply filter_In in Hother. rewrite <- Hkey. apply in_map. tauto.
Qed.

(** Two rows with the same value in a column free of repeats are one row. *)
Lemma same_key_same_row {K : Type} (column : GenerationJob -> K)
      (rows : list GenerationJob) (a b : GenerationJob) :
  NoDup (map column rows) -> In a rows -> In b rows -> column a = column b -> a = b.
Proof.
  induction rows as [|row rows IH]; simpl; intros Hrows Ha Hb Hkey; [contradiction|].
  apply NoDup_cons_iff in Hrows. destruct Hrows as [Hfresh Hrest].
  destruct Ha as [<-|Ha], Hb as [<-|Hb]; auto.
  - exfalso. apply Hfresh. rewrite Hkey. now apply in_map.
  - exfalso. apply Hfresh. rewrite <- Hkey. now apply in_map.
Qed.

Lemma commit_well_formed (db db' : Database) (now : DateTime)
      (obj stored : GenerationJob) :
  commit_and_refresh db now obj = Returned (db', stored) ->
  well_formed db -> well_formed db'.
Proof.
  unfold commit_and_refresh, well_formed, primary_key_unique, uuid_unique,
    ids_below_seq.
  destruct (write_row now obj (generation_jobs db)) as [[rows' s]|] eqn:E;
    intro H; [|discriminate H].
  injection H as <- _. simpl. intros (Hid & Hu & Hseq).
  destruct (write_row_keys _ _ _ _ _ E) as [Eid Eu].
  rewrite Eid, Eu. repeat split; auto.
  rewrite Forall_forall in *. intros x Hx.
  assert (Hin : In (id x) (map id (generation_jobs db)))
    by (rewrite <- Eid; now apply in_map).
  apply in_map_iff in Hin. destruct Hin as (y & <- & Hy). auto.
Qed.

(** One call keeps the table well formed. *)
Lemma run_well_formed (db : Database) (c : call) :
  well_formed db -> well_formed (run db c).
Proof.
  intro Hwf. destruct c as [u now job_in|u now job_in|u now st key|u]; simpl.
  - unfold create_job. destruct (get_job_by_uuid db u) eqn:Hget.
    { destruct Hwf as (Hid & Hu & Hseq). repeat split; [exact Hid|exact Hu|].
      unfold ids_below_seq in *. simpl. rewrite Forall_forall in *.
      intros x Hx. specialize (Hseq x Hx). lia. }
    destruct Hwf as (Hid & Hu & Hseq).
    unfold well_formed, primary_key_unique, uuid_unique, ids_below_seq in *. simpl.
    rewrite !map_app. simpl. rewrite Forall_forall in Hseq.
    repeat split.
    + apply NoDup_app; repeat split; auto.
      * repeat constructor. simpl. tauto.
      * intros x Hx [<-|[]]. apply in_map_iff in Hx.
        destruct Hx as (y & Hy & Hin). specialize (Hseq y Hin). lia.
    + apply NoDup_app; repeat split; auto.
      * repeat constructor. simpl. tauto.
      * intros x Hx [<-|[]]. apply in_map_iff in Hx.
        destruct Hx as (y & Hy & Hin).
        pose proof (find_none_forall _ _ Hget y Hin) as Hf. simpl in Hf.
        rewrite Hy, N.eqb_refl in Hf. discriminate Hf.
    + apply Forall_app. split.
      * rewrite Forall_forall. intros x Hx. specialize (Hseq x Hx). lia.
      * repeat constructor. simpl. lia.
  - destruct (get_job_by_uuid db u); [|exact Hwf].
    destruct (update_job db now g job_in) as [[db' stored]| |] eqn:E; try exact Hwf.
    eapply commit_well_formed; [exact E|exact Hwf].
  - unfold update_job_status. destruct (get_job_by_uuid db u); [|exact Hwf].
    match goal with
    | |- context [commit_and_refresh db now ?o] =>
        destruct (commit_and_refresh db now o) as [[db' stored]| |] eqn:E
    end; try exact Hwf.
    eapply commit_well_formed; [exact E|exact Hwf].
  - unfold delete_job. destruct (get_job_by_uuid db u); [|exact Hwf]. simpl.
    destruct Hwf as (Hid & Hu & Hseq).
    unfold well_formed, primary_key_unique, uuid_unique, ids_below_seq in *. simpl.
    repeat split; try now apply column_unique_after_delete.
    rewrite Forall_forall in *. intros x Hx. apply filter_In in Hx. apply Hseq. tauto.
Qed.




(** *** One call touches one job *)

Lemma find_filter_same {A : Type} (f p : A -> bool) (l : list A) :
  (forall x, In x l -> f x = true -> p x = true) ->
  find f (filter p l) = find f l.
Proof.
  induction l as [|a l IH]; simpl; intro H; [reflexivity|].
  destruct (f a) eqn:Ef.
  - rewrite (H a (or_introl eq_refl) Ef). simpl. now rewrite Ef.
  - destruct (p a); simpl; [rewrite Ef|]; apply IH; auto.
Qed.

Lemma find_app_other {A : Type} (f : A -> bool) (l : list A) (x : A) :
  f x = false -> find f (l ++ [x]) = find f l.
Proof.
  intro Hx. induction l as [|a l IH]; simpl; [now rewrite Hx|].
  destruct (f a); auto.
Qed.

Lemma write_row_other (now : DateTime) (obj stored : GenerationJob)
      (rows rows' : list GenerationJob) (other : UUID) :
  write_row now obj rows = Some (rows', stored) ->
  (forall row, In row rows -> id row = id obj -> uuid row <> other) ->
  find (fun r => N.eqb (uuid r) other) rows'
  = find (fun r => N.eqb (uuid r) other) rows.
Proof.
  revert rows'. induction rows as [|r rows IH]; simpl; intros rows' H Hne;
    [discriminate H|].
  destruct (Z.eqb (id r) (id obj)) eqn:E.
  - injection H as <- _. simpl.
    destruct (update_row_columns now r obj) as (_ & _ & _ & -> & _).
    apply Z.eqb_eq in E.
    assert (Hu : N.eqb (uuid r) other = false)
      by (apply N.eqb_neq; apply Hne; auto).
    now rewrite Hu.
  - destruct (write_row now obj rows) as [[rest' s]|]; [|discriminate H].
    injection H as <- <-. simpl.
    destruct (N.eqb (uuid r) other); [reflexivity|].
    apply IH; auto.
Qed.

Lemma commit_other (db db' : Database) (now : DateTime)
      (obj stored job : GenerationJob) (job_uuid other : UUID) :
  well_formed db ->
  get_job_by_uuid db job_uuid = Some job ->
  id obj = id job ->
  other <> job_uuid ->
  commit_and_refresh db now obj = Returned (db', stored) ->
  get_job_by_uuid db' other = get_job_by_uuid db other.
Proof.
  unfold commit_and_refresh, get_job_by_uuid.
  intros (Hid & _ & _) Hget Hobj Hne H.
  destruct (write_row now obj (generation_jobs db)) as [[rows' s]|] eqn:E;
    [|discriminate H].
  injection H as <- _. simpl.
  eapply write_row_other; [exact E|].
  intros row Hin Hrow Hu.
  pose proof (find_some _ _ Hget) as [Hjob Hju]. apply N.eqb_eq in Hju.
  assert (row = job)
    by (eapply same_key_same_row; [exact Hid|exact Hin|exact Hjob|congruence]).
  subst row. congruence.
Qed.

Lemma run_other (db : Database) (c : call) (other : UUID) :
  well_formed db ->
  other <> target c ->
  get_job_by_uuid (run db c) other = get_job_by_uuid db other.
Proof.
  intros Hwf Hne.
  destruct c as [u now job_in|u now job_in|u now st key|u]; simpl in *.
  - unfold create_job. destruct (get_job_by_uuid db u); [reflexivity|].
    unfold get_job_by_uuid. simpl. apply find_app_other. simpl.
    apply N.eqb_neq. congruence.
  - destruct (get_job_by_uuid db u) as [db_job|] eqn:Hget; [|reflexivity].
    destruct (update_job db now db_job job_in) as [[db' stored]| |] eqn:E;
      try reflexivity.
    unfold update_job in E.
    eapply commit_other; [exact Hwf|exact Hget| |exact Hne|exact E].
    apply (setattr_update_data db_job job_in).
  - unfold update_job_status.
    destruct (get_job_by_uuid db u) as [job|] eqn:Hget; [|reflexivity].
    match goal with
    | |- context [commit_and_refresh db now ?o] =>
        destruct (commit_and_refresh db now o) as [[db' stored]| |] eqn:E
    end; try reflexivity.
    eapply commit_other; [exact Hwf|exact Hget| |exact Hne|exact E].
    destruct key; reflexivity.
  - unfold delete_job.
    destruct (get_job_by_uuid db u) as [job|] eqn:Hget; [|reflexivity]. simpl.
    unfold get_job_by_uuid. simpl. apply find_filter_same.
    intros x Hx Hux. apply N.eqb_eq in Hux.
    apply negb_true_iff, Z.eqb_neq. intro Hid.
    destruct Hwf as (Hpk & _ & _).
    pose proof (find_some _ _ Hget) as [Hjob Hju]. apply N.eqb_eq in Hju.
    assert (x = job) by (eapply same_key_same_row; eauto).
    subst x. congruence.
Qed.

(** X2: a repository call about one uuid leaves every job stored under
    another uuid exactly as it was: [create_job], [update_job],
    [update_job_status] and [delete_job] read and write one row. *)
Theorem run_leaves_other_jobs (db : Database) (c : call) (other : UUID) :
  well_formed db ->
  other <> target c ->
  get_job_by_uuid (run db c) other = get_job_by_uuid db other.
Proof.
  exact (run_other db c other).
Qed.

Lemma run_leaves_other_jobs_witness :
  get_job_by_uuid (run samples.two_jobs (UpdateStatus 9%N 300 FAILED None)) 7%N
  = get_job_by_uuid samples.two_jobs 7%N /\
  option_map status (get_job_by_uuid samples.two_jobs 9%N) = Some (Some PENDING) /\
  option_map status
    (get_job_by_uuid (run samples.two_jobs (UpdateStatus 9%N 300 FAILED None)) 9%N)
  = Some (Some FAILED).
Proof.
  split; [|split; reflexivity].
  apply (run_leaves_other_jobs samples.two_jobs (UpdateStatus 9%N 300 FAILED None) 7%N).
  - repeat split; repeat constructor; simpl; try lia; intuition discriminate.
  - discriminate.
Defined.

(** X3: [delete_job] on a stored uuid returns the stored job and removes it,
    so that fetching the uuid then finds nothing and a second [delete_job]
    is a no-op that returns [None]; on a uuid that is not stored it returns
    [None] and leaves the table as it is. *)
Theorem delete_job_removes_once (db : Database) (job_uuid : UUID) :
  well_formed db ->
  let db' := fst (delete_job db job_uuid) in
  snd (delete_job db job_uuid) = get_job_by_uuid db job_uuid /\
  get_job_by_uuid db' job_uuid = None /\
  delete_job db' job_uuid = (db', None) /\
  (get_job_by_uuid db job_uuid = None -> db' = db).
Proof.
  intros (Hpk & Hu & _) db'.
  assert (Hnone : get_job_by_uuid db' job_uuid = None).
  { subst db'. unfold delete_job.
    destruct (get_job_by_uuid db job_uuid) as [job|] eqn:Hget; [|exact Hget].
    simpl. unfold get_job_by_uuid. simpl.
    destruct (find _ (filter _ _)) as [x|] eqn:Hx; [exfalso|reflexivity].
    apply find_some in Hx. destruct Hx as [Hin Hux].
    apply filter_In in Hin. destruct Hin as [Hin Hid].
    apply N.eqb_eq in Hux.
    pose proof (find_some _ _ Hget) as [Hjob Hju]. apply N.eqb_eq in Hju.
    assert (x = job)
      by (eapply same_key_same_row; [exact Hu|exact Hin|exact Hjob|congruence]).
    subst x. rewrite Z.eqb_refl in Hid. discriminate Hid. }
  repeat split.
  - unfold delete_job. destruct (get_job_by_uuid db job_uuid); reflexivity.
  - exact Hnone.
  - unfold delete_job at 1. now rewrite Hnone.
  - intro H. subst db'. unfold delete_job. now rewrite H.
Qed.

Lemma delete_job_removes_once_witness :
  snd (delete_job samples.one_pending 7%N) = Some samples.pending_job /\
  get_job_by_uuid (fst (delete_job samples.one_pending 7%N)) 7%N = None.
Proof.
  destruct (delete_job_removes_once samples.one_pending 7%N) as (H1 & H2 & _).
  - repeat split; repeat constructor; simpl; try tauto; lia.
  - split; [exact H1 | exact H2].
Defined.

(** *** What no call changes *)

Lemma same_identity_refl (job : GenerationJob) : same_identity job job.
Proof.
  repeat split.
Qed.

Lemma same_identity_trans (a b c : GenerationJob) :
  same_identity a b -> same_identity b c -> same_identity a c.
Proof.
  unfold same_identity. intuition congruence.
Qed.

Lemma commit_found (db : Database) (now : DateTime) (obj job : GenerationJob)
      (job_uuid : UUID) :
  primary_key_unique db ->
  get_job_by_uuid db job_uuid = Some job ->
  id obj = id job ->
  exists db' job',
    commit_and_refresh db now obj = Returned (db', job') /\
    get_job_by_uuid db' job_uuid = Some job' /\
    same_identity job' job /\
    status job' = status obj /\
    generated_image_key job' = generated_image_key obj.
Proof.
  intros Hpk Hget Hid. unfold commit_and_refresh.
  destruct (write_row_found now obj job job_uuid (generation_jobs db) Hpk Hget Hid)
    as (rows' & -> & Hfound).
  destruct (update_row_columns now job obj)
    as (Hs & Hk & ? & ? & ? & ? & ? & ?).
  eexists; eexists; split; [reflexivity|].
  repeat split; auto.
Qed.

Lemma run_keeps_stored (db : Database) (c : call) (job_uuid : UUID)
      (job : GenerationJob) :
  well_formed db ->
  get_job_by_uuid db job_uuid = Some job ->
  c <> Delete job_uuid ->
  exists job',
    get_job_by_uuid (run db c) job_uuid = Some job' /\ same_identity job' job.
Proof.
  intros Hwf Hget Hc.
  destruct (N.eq_dec job_uuid (target c)) as [->|Hne].
  2: { exists job. rewrite (run_other db c job_uuid Hwf Hne).
       split; [exact Hget | apply same_identity_refl]. }
  destruct Hwf as (Hpk & _ & _).
  destruct c as [u now job_in|u now job_in|u now st key|u]; simpl in *.
  - unfold create_job. rewrite Hget. eauto using same_identity_refl.
  - rewrite Hget. unfold update_job.
    destruct (commit_found db now
                (fold_left setattr (schemas.model_dump_exclude_unset job_in) job)
                job u Hpk Hget)
      as (db' & job' & -> & Hg & Hsame & _).
    + apply (setattr_update_data job job_in).
    + eauto.
  - destruct (update_job_status_found db now u st key job Hpk Hget)
      as (db' & job' & -> & Hg & _ & _ & Hrest).
    exists job'. split; [exact Hg | exact Hrest].
  - congruence.
Qed.

(** X4: a stored job stays stored, with the same [id], [uuid], [prompt],
    [initial_image_key], [reference_image_key] and [created_at], through any
    sequence of repository calls that does not delete it: only [status],
    [generated_image_key] and [updated_at] ever change. *)
Theorem stored_job_keeps_identity (calls : list call) (db : Database)
        (job_uuid : UUID) (job : GenerationJob) :
  well_formed db ->
  get_job_by_uuid db job_uuid = Some job ->
  ~ In (Delete job_uuid) calls ->
  exists job',
    get_job_by_uuid (run_all db calls) job_uuid = Some job' /\
    same_identity job' job.
Proof.
  revert db job. induction calls as [|c calls IH]; simpl; intros db job Hwf Hget Hnd.
  - eauto using same_identity_refl.
  - destruct (run_keeps_stored db c job_uuid job Hwf Hget) as (job1 & Hg1 & Hs1).
    + intros ->. apply Hnd. now left.
    + destruct (IH (run db c) job1) as (job' & Hg & Hs); auto using run_well_formed.
      exists job'. split; [exact Hg|]. eapply same_identity_trans; eauto.
Qed.

Lemma stored_job_keeps_identity_witness :
  exists job',
    get_job_by_uuid
      (run_all samples.one_pending
               [UpdateStatus 7%N 150 PROCESSING None;
                Create 9%N 160 samples.swap_background;
                UpdateStatus 7%N 200 COMPLETED (Some "u/1/generated.png")]) 7%N
    = Some job' /\
    same_identity job' samples.pending_job.
Proof.
  apply (stored_job_keeps_identity
           [UpdateStatus 7%N 150 PROCESSING None;
            Create 9%N 160 samples.swap_background;
            UpdateStatus 7%N 200 COMPLETED (Some "u/1/generated.png")]
           samples.one_pending 7%N samples.pending_job).
  - repeat split; repeat constructor; simpl; try tauto; lia.
  - reflexivity.
  - simpl. intros [H|[H|[H|[]]]]; discriminate H.
Defined.

End RepositoryInvariants.

(** ** The URL pattern *)

Section UrlPattern.
Import openrouter_service url_pattern.

Lemma strip_prefix_app (p s rest : string) :
  strip_prefix p s = Some rest -> s = p ++ rest.
Proof.
  revert s. induction p as [|a p IH]; intros s H; simpl in *.
  - now injection H as ->.
  - destruct s as [|b s]; [discriminate H|].
    destruct (Ascii.eqb a b) eqn:E; [|discriminate H].
    apply Ascii.eqb_eq in E. subst b. f_equal. auto.
Qed.

Lemma strip_prefix_same (p rest : string) : strip_prefix p (p ++ rest) = Some rest.
Proof.
  induction p as [|a p IH]; simpl; [reflexivity|].
  now rewrite Ascii.eqb_refl.
Qed.

Lemma append_assoc (a b c : string) : (a ++ b) ++ c = a ++ b ++ c.
Proof.
  induction a as [|x a IH]; simpl; [reflexivity|]. now rewrite IH.
Qed.

(** The greedy run stops where white space begins or the text ends, and no
    white space begins before that. *)
Lemma non_space_run_split (s : string) :
  exists post, s = non_space_run s ++ post /\
               no_space (non_space_run s) post /\ ends_run post = true.
Proof.
  induction s as [|c s (post & Hs & Hrun & Hpost)].
  - exists EmptyString. repeat split.
    intros before after H Hafter. destruct before; simpl in H; [congruence|discriminate H].
  - cbn [non_space_run]. destruct (is_space (String c s)) eqn:E.
    + exists (String c s). repeat split; [|exact E].
      intros before after H Hafter.
      destruct before; simpl in H; [congruence|discriminate H].
    + exists post. repeat split.
      * cbn [append]. now f_equal.
      * intros before after H Hafter.
        destruct before as [|b before]; cbn [append] in H.
        -- subst after. cbn [append]. rewrite <- Hs. exact E.
        -- injection H as _ H. now apply (Hrun before after).
      * exact Hpost.
Qed.

Lemma non_space_run_head (s : string) (c : ascii) (run : string) :
  non_space_run s = String c run -> s <> EmptyString /\ is_space s = false.
Proof.
  destruct s as [|a s]; cbn [non_space_run]; [discriminate|].
  destruct (is_space (String a s)); [discriminate|].
  intros _. split; [discriminate|reflexivity].
Qed.

Lemma non_space_run_starts (s : string) :
  s <> EmptyString -> is_space s = false ->
  exists c run, non_space_run s = String c run.
Proof.
  destruct s as [|a s]; [congruence|]. intros _ H.
  cbn [non_space_run]. rewrite H. eauto.
Qed.

Lemma match_url_here_sound (s m : string) :
  match_url_here s = Some m ->
  url_starts s /\
  exists run post,
    (m = "http://" ++ run \/ m = "https://" ++ run) /\
    run <> EmptyString /\
    s = m ++ post /\ no_space run post /\ ends_run post = true.
Proof.
  unfold match_url_here.
  assert (H : forall scheme,
             (scheme = "http://" \/ scheme = "https://") ->
             match strip_prefix scheme s with
             | Some rest =>
                 match non_space_run rest with
                 | EmptyString => None
                 | run => Some (scheme ++ run)
                 end
             | None => None
             end = Some m ->
             url_starts s /\
             exists run post,
               (m = "http://" ++ run \/ m = "https://" ++ run) /\
               run <> EmptyString /\
               s = m ++ post /\ no_space run post /\ ends_run post = true).
  { intros scheme Hscheme Hm.
    destruct (strip_prefix scheme s) as [rest|] eqn:Hp; [|discriminate Hm].
    apply strip_prefix_app in Hp.
    destruct (non_space_run_split rest) as (post & Hrest & Hrun & Hpost).
    destruct (non_space_run rest) as [|c run] eqn:Er; [discriminate Hm|].
    injection Hm as <-.
    destruct (non_space_run_head rest c run Er) as [Hne Hns].
    split.
    - exists rest. repeat split; [|exact Hne|exact Hns].
      destruct Hscheme as [-> | ->]; auto.
    - exists (String c run), post. repeat split; [|discriminate| |exact Hrun|exact Hpost].
      + destruct Hscheme as [-> | ->]; auto.
      + rewrite Hp, Hrest at 1. now rewrite append_assoc. }
  destruct (match strip_prefix "https://" s with
            | Some rest => _ | None => None end) as [m'|] eqn:E.
  - intro Hm. injection Hm as ->. apply (H "https://"); auto.
  - intro Hm. apply (H "http://"); auto.
Qed.

Lemma match_url_here_complete (s : string) :
  url_starts s -> exists m, match_url_here s = Some m.
Proof.
  intros (tail & Hs & Hne & Hns).
  destruct (non_space_run_starts tail Hne Hns) as (c & run & Hrun).
  unfold match_url_here. destruct Hs as [-> | ->].
  - replace (strip_prefix "https://" ("http://" ++ tail)) with (@None string)
      by reflexivity.
    rewrite strip_prefix_same, Hrun. eauto.
  - rewrite strip_prefix_same, Hrun. eauto.
Qed.

Lemma extract_url_from_text_unfold (text : string) :
  _extract_url_from_text text =
  match match_url_here text with
  | Some m => Some m
  | None =>
      match text with
      | EmptyString => None
      | String _ rest => _extract_url_from_text rest
      end
  end.
Proof.
  destruct text; reflexivity.
Qed.

(** X5: a URL extracted from a text occurs in the text; it is one of the two
    schemes followed by at least one character; no white-space character,
    of Unicode's, begins inside it; it runs up to the next white space or the
    end of the text; and it is the leftmost match: at no earlier position
    does the text read a scheme and then a character that is not white
    space. *)
Theorem extract_url_from_text_sound (text url : string) :
  _extract_url_from_text text = Some url ->
  exists pre run post : string,
    text = pre ++ url ++ post /\
    (url = "http://" ++ run \/ url = "https://" ++ run) /\
    run <> EmptyString /\
    no_space run post /\
    ends_run post = true /\
    (forall skipped rest : string,
        pre = skipped ++ rest -> rest <> EmptyString ->
        ~ url_starts (rest ++ url ++ post)).
Proof.
  induction text as [|c text IH]; rewrite extract_url_from_text_unfold.
  - destruct (match_url_here EmptyString) as [m|] eqn:Hm; [|discriminate].
    apply match_url_here_sound in Hm.
    destruct Hm as ((tail & [H|H] & _) & _); discriminate H.
  - destruct (match_url_here (String c text)) as [m|] eqn:Hm.
    + intro H. injection H as ->.
      destruct (match_url_here_sound _ _ Hm)
        as (_ & run & post & Hurl & Hne & Hs & Hrun & Hpost).
      exists EmptyString, run, post. cbn [append]. repeat split; auto.
      intros skipped rest Hpre Hrest. destruct skipped; simpl in Hpre; congruence.
    + intro H.
      destruct (IH H) as (pre & run & post & Ht & Hurl & Hne & Hrun & Hpost & Hleft).
      exists (String c pre), run, post. cbn [append].
      repeat split; [now f_equal|exact Hurl|exact Hne|exact Hrun|exact Hpost|].
      intros skipped rest Hpre Hrest Hstarts.
      destruct skipped as [|a skipped]; cbn [append] in Hpre.
      * subst rest. cbn [append] in Hstarts. rewrite <- Ht in Hstarts.
        destruct (match_url_here_complete _ Hstarts) as [m Hm']. congruence.
      * injection Hpre as _ Hpre. exact (Hleft skipped rest Hpre Hrest Hstarts).
Qed.

Lemma extract_url_from_text_sound_witness :
  _extract_url_from_text samples.answer_with_wide_space
  = Some "https://cdn.example/a.png" /\
  exists pre run post : string,
    samples.answer_with_wide_space = pre ++ "https://cdn.example/a.png" ++ post /\
    ("https://cdn.example/a.png" = "http://" ++ run
     \/ "https://cdn.example/a.png" = "https://" ++ run) /\
    run <> EmptyString /\
    no_space run post /\
    ends_run post = true /\
    (forall skipped rest : string,
        pre = skipped ++ rest -> rest <> EmptyString ->
        ~ url_starts (rest ++ "https://cdn.example/a.png" ++ post)).
Proof.
  split; [reflexivity|].
  apply (extract_url_from_text_sound samples.answer_with_wide_space
                                     "https://cdn.example/a.png").
  reflexivity.
Defined.

(** White space is told by the character, not by the byte: the byte A0
    inside the two bytes of a letter does not end a URL, the two bytes of a
    no-break space do. *)
Lemma url_with_accent_is_whole :
  _extract_url_from_text ("see " ++ samples.url_with_accent ++ " there")
  = Some samples.url_with_accent /\
  _extract_url_from_text
    ("https://cdn.example/a" ++ String "194" (String "160" "b.png"))
  = Some "https://cdn.example/a" /\
  _extract_url_from_text ("http://" ++ samples.wide_space ++ "a.png") = None.
Proof.
  repeat split.
Qed.

(** X6: a text yields a URL exactly when, at some position, it reads one of
    the two schemes and then a character that is not white space. *)
Theorem extract_url_from_text_complete (text : string) :
  (exists url, _extract_url_from_text text = Some url) <->
  (exists pre s : string, text = pre ++ s /\ url_starts s).
Proof.
  split.
  - intros [url H]. revert H.
    induction text as [|c text IH]; rewrite extract_url_from_text_unfold.
    + destruct (match_url_here EmptyString) as [m|] eqn:Hm; [|discriminate].
      intros _. exists EmptyString, EmptyString. split; [reflexivity|].
      now apply (match_url_here_sound _ _ Hm).
    + destruct (match_url_here (String c text)) as [m|] eqn:Hm.
      * intros _. exists EmptyString, (String c text). split; [reflexivity|].
        now apply (match_url_here_sound _ _ Hm).
      * intro H. destruct (IH H) as (pre & s & -> & Hs).
        exists (String c pre), s. split; [reflexivity|exact Hs].
  - intros (pre & s & -> & Hs).
    destruct (match_url_here_complete s Hs) as [m Hm].
    induction pre as [|a pre IH]; cbn [append];
      rewrite extract_url_from_text_unfold.
    + rewrite Hm. eauto.
    + destruct (match_url_here (String a (pre ++ s))); eauto.
Qed.

Lemma extract_url_from_text_complete_witness :
  exists url, _extract_url_from_text "see http://x.png here" = Some url.
Proof.
  apply (proj2 (extract_url_from_text_complete "see http://x.png here")).
  exists "see ", "http://x.png here". split; [reflexivity|].
  exists "x.png here". repeat split; [now left|discriminate].
Defined.

End UrlPattern.

(** ** What one call of the client sends *)

Section UpstreamTrace.
Import openrouter_service trace.
Local Open Scope Z_scope.

Context {Env : Type}.
Variable requests_get : string -> Env -> option Response * Env.
Variable chat_completions_create :
  ChatRequest -> Env -> api_outcome ChatCompletion * Env.
Variable responses_create : ResponsesRequest -> Env -> api_outcome value * Env.
Variable wait : nat -> Env -> Env.
Variable b64decode : string -> option bytes.

Lemma chat_requests_app (a b : list event) :
  chat_requests (a ++ b) = (chat_requests a ++ chat_requests b)%list.
Proof.
  induction a as [|[] a IH]; simpl; auto. now rewrite IH.
Qed.

Lemma sleeps_app (a b : list event) :
  sleeps (a ++ b) = (sleeps a ++ sleeps b)%list.
Proof.
  induction a as [|[] a IH]; simpl; auto. now rewrite IH.
Qed.

Lemma inside_attempt_app (a b : list event) :
  inside_attempt a -> inside_attempt b -> inside_attempt (a ++ b).
Proof.
  unfold inside_attempt. rewrite chat_requests_app, sleeps_app.
  intros [-> ->] [-> ->]. auto.
Qed.

Lemma adds_refl (w : @World Env) : adds inside_attempt w w.
Proof.
  exists []. rewrite app_nil_r. repeat split.
Qed.

Lemma adds_trans (w1 w2 w3 : @World Env) :
  adds inside_attempt w1 w2 -> adds inside_attempt w2 w3 ->
  adds inside_attempt w1 w3.
Proof.
  intros (e1 & H1 & P1) (e2 & H2 & P2). exists (e1 ++ e2)%list.
  split; [now rewrite H2, H1, app_assoc | now apply inside_attempt_app].
Qed.

Lemma fetch_bytes_from_url_adds (url : string) (w : World) :
  adds inside_attempt w (snd (_fetch_bytes_from_url requests_get url w)).
Proof.
  unfold _fetch_bytes_from_url, bind, do_requests_get.
  destruct (requests_get url (env w)) as [[resp|] e]; simpl.
  - destruct ((status_code resp =? 429)
              || (500 <=? status_code resp) && (status_code resp <? 600));
      [|destruct (400 <=? status_code resp)]; simpl;
      (eexists; split; [reflexivity | split; reflexivity]).
  - eexists; split; [reflexivity | split; reflexivity].
Qed.

Lemma fetch_bytes_from_adds (url : value) (w : World) :
  adds inside_attempt w (snd (fetch_bytes_from requests_get url w)).
Proof.
  destruct url; simpl; try apply adds_refl. apply fetch_bytes_from_url_adds.
Qed.

Lemma decode_b64_same_world (data_b64 : value) (w : @World Env) :
  snd (_decode_b64 b64decode data_b64 w) = w.
Proof.
  destruct data_b64; simpl; try reflexivity. destruct (b64decode s); reflexivity.
Qed.

Lemma or_none_adds (c : @M Env bytes) (w : World) :
  adds inside_attempt w (snd (c w)) -> adds inside_attempt w (snd (or_none c w)).
Proof.
  unfold or_none. destruct (c w) as [[data|e] w']; auto.
Qed.

Lemma extract_bytes_from_part_adds (part : value) (w : World) :
  adds inside_attempt w
       (snd (_extract_bytes_from_part requests_get b64decode part w)).
Proof.
  unfold _extract_bytes_from_part.
  destruct (_get part "type"); try apply adds_refl;
    match goal with
    | |- context [if truthy ?u then _ else _] => destruct (truthy u)
    end;
    try (unfold bind;
         match goal with
         | |- context [fetch_bytes_from requests_get ?u w] =>
             pose proof (fetch_bytes_from_adds u w) as H; revert H;
             destruct (fetch_bytes_from requests_get u w) as [[d|e] w1];
             intro H; exact H
         end);
    match goal with
    | |- context [if truthy ?u then _ else _] => destruct (truthy u)
    end; try apply adds_refl;
    unfold bind;
    match goal with
    | |- context [_decode_b64 b64decode ?v w] =>
        pose proof (decode_b64_same_world v w) as H; revert H;
        destruct (_decode_b64 b64decode v w) as [[d|e] w1];
        simpl; intros ->; apply adds_refl
    end.
Qed.

Lemma extract_bytes_from_parts_adds (parts : list value) (w : World) :
  adds inside_attempt w
       (snd (_extract_bytes_from_parts requests_get b64decode parts w)).
Proof.
  revert w. induction parts as [|part rest IH]; intro w; simpl.
  - apply adds_refl.
  - pose proof (extract_bytes_from_part_adds part w) as H. revert H.
    destruct (_extract_bytes_from_part requests_get b64decode part w)
      as [[data|e] w1]; simpl; intro H.
    + destruct (truthy_bytes data); [exact H|].
      eapply adds_trans; [exact H | apply IH].
    + eapply adds_trans; [exact H | apply IH].
Qed.

Lemma deep_find_image_payload_adds (obj : value) :
  forall w : World,
    adds inside_attempt w
         (snd (_deep_find_image_payload requests_get b64decode obj w)).
Proof.
  induction obj as [| | | |l IH|items IH] using value_ind; intro w;
    try apply adds_refl.
  - simpl. revert w. induction IH as [|x rest Hx _ IHrest]; intro w.
    + apply adds_refl.
    + specialize (Hx w).
      destruct (_deep_find_image_payload requests_get b64decode x w) as [found w'].
      destruct (truthy_bytes found); [exact Hx|].
      eapply adds_trans; [exact Hx | apply IHrest].
  - simpl.
    destruct (truthy (dict_get items "b64_json")).
    { apply or_none_adds. rewrite decode_b64_same_world. apply adds_refl. }
    match goal with
    | |- context [if truthy ?u then _ else _] => destruct (truthy u) eqn:Hu
    end; [apply or_none_adds, fetch_bytes_from_adds|].
    clear Hu. revert w. induction IH as [|[k x] rest Hx _ IHrest]; intro w.
    + apply adds_refl.
    + specialize (Hx w). simpl in Hx.
      destruct (_deep_find_image_payload requests_get b64decode x w) as [found w'].
      destruct (truthy_bytes found); [exact Hx|].
      eapply adds_trans; [exact Hx | apply IHrest].
Qed.

Lemma responses_fallback_adds
      (client : OpenAI) (model prompt : string)
      (initial_url reference_url : option string)
      (extra_body : option (list (string * value))) (w : World) :
  adds inside_attempt w
       (snd (_responses_fallback requests_get responses_create b64decode
                                 client model prompt initial_url reference_url
                                 extra_body w)).
Proof.
  unfold _responses_fallback, do_responses_create.
  set (req := responses_request client model prompt initial_url reference_url
                                extra_body).
  assert (Hreq : forall e,
             adds inside_attempt w
                  {| env := e; log := log w ++ [ResponsesCreate req] |})
    by (intro e; eexists; split; [reflexivity | split; reflexivity]).
  destruct (responses_create req (env w)) as [[data2| |] e]; cbn [snd];
    try apply Hreq.
  pose proof (deep_find_image_payload_adds
                data2 {| env := e; log := log w ++ [ResponsesCreate req] |}) as H.
  revert H.
  destruct data2; try (intros _; apply Hreq);
    destruct (_deep_find_image_payload requests_get b64decode _ _);
    intro H; (eapply adds_trans; [apply Hreq | exact H]).
Qed.

(** X23: the deep search finds nothing, and sends nothing, in a document
    where no dict at any depth offers an image, that is has a truthy
    [b64_json] or an [image_url] dict with a truthy [url]: text, numbers
    and the names of other keys are never taken for a payload. *)
Theorem deep_find_image_payload_needs_an_offer (obj : value) :
  forall w : @World Env,
    offers_image obj = false ->
    _deep_find_image_payload requests_get b64decode obj w = (None, w).
Proof.
  induction obj as [| | | |l IH|items IH] using value_ind; intros w Hno;
    try reflexivity.
  - simpl in *. revert w Hno. induction IH as [|x rest Hx _ IHrest]; intros w Hno.
    + reflexivity.
    + apply orb_false_iff in Hno. destruct Hno as [H1 H2].
      rewrite (Hx w H1). simpl. apply IHrest. exact H2.
  - simpl in *.
    apply orb_false_iff in Hno. destruct Hno as [Hno Hany].
    apply orb_false_iff in Hno. destruct Hno as [Hb64 Hurl].
    rewrite Hb64.
    assert (Hu : truthy (if truthy (dict_get items "image_url")
                         then match dict_get items "image_url" with
                              | VDict c => dict_get c "url"
                              | _ => VNone
                              end
                         else VNone) = false).
    { destruct (truthy (dict_get items "image_url")); [|reflexivity].
      destruct (dict_get items "image_url"); auto. }
    rewrite Hu. clear Hb64 Hurl Hu.
    revert w Hany. induction IH as [|[k x] rest Hx _ IHrest]; intros w Hany.
    + reflexivity.
    + apply orb_false_iff in Hany. destruct Hany as [H1 H2]. simpl in Hx.
      rewrite (Hx w H1). simpl. apply IHrest. exact H2.
Qed.

(** *** One attempt, then the whole call *)

Variable settings_OPENROUTER_API_KEY : string.
Variables (prompt : string) (initial_url reference_url api_key : option string)
          (model : string) (http_referer x_title : option string)
          (extra_body : option (list (string * value))).

Local Abbreviation attempt :=
  (_sync_request_and_extract_bytes
     requests_get chat_completions_create responses_create b64decode
     settings_OPENROUTER_API_KEY prompt initial_url reference_url api_key model
     http_referer x_title extra_body).

Local Abbreviation generate :=
  (generate_image
     requests_get chat_completions_create responses_create wait b64decode
     settings_OPENROUTER_API_KEY prompt initial_url reference_url api_key model
     http_referer x_title extra_body).

Local Abbreviation client :=
  (mkOpenAI "https://openrouter.ai/api/v1" (key settings_OPENROUTER_API_KEY api_key)).

Local Abbreviation the_chat_request :=
  (chat_request client model (_build_messages prompt initial_url reference_url)
                http_referer x_title extra_body).

Local Abbreviation fallback :=
  (_responses_fallback requests_get responses_create b64decode
                       client model prompt initial_url reference_url extra_body).

Local Abbreviation after_scan found :=
  (match found with
   | Some (b :: data) => ret (b :: data)
   | _ =>
       bind fallback
            (fun found =>
               match found with
               | Some (b :: data) => ret (b :: data)
               | _ => raise (ImageGenerationError
                               "Upstream did not include an image payload")
               end)
   end).

Lemma after_scan_adds (found : option bytes) (w : @World Env) :
  adds inside_attempt w (snd (after_scan found w)).
Proof.
  pose proof (responses_fallback_adds client model prompt initial_url
                                      reference_url extra_body w) as H.
  destruct found as [[|b d]|]; try apply adds_refl; unfold bind; revert H;
    destruct (fallback w) as [[[[|b' d']|]|e] w3]; intro H; exact H.
Qed.

Lemma after_scan_raises (found : option bytes) (w w' : @World Env) (e : exn) :
  after_scan found w = (Raise e, w') -> exists msg, e = ImageGenerationError msg
                                         \/ e = UpstreamUnavailable msg.
Proof.
  assert (Hf : forall w3 e3, fallback w = (Raise e3, w3) ->
               exists msg, e3 = ImageGenerationError msg
                           \/ e3 = UpstreamUnavailable msg).
  { unfold _responses_fallback.
    destruct (do_responses_create responses_create _ w) as [[data2| |] w1];
      intros w3 e3 H.
    - destruct data2; try discriminate H;
        destruct (_deep_find_image_payload requests_get b64decode _ _);
        discriminate H.
    - injection H as <- _. eexists. left. reflexivity.
    - injection H as <- _. eexists. right. reflexivity. }
  destruct found as [[|b d]|]; try discriminate; unfold bind;
    destruct (fallback w) as [[[[|b' d']|]|e3] w3] eqn:E; intro H;
    try discriminate H;
    try (injection H as <- _; eexists; left; reflexivity);
    injection H as <- _; eapply Hf; reflexivity.
Qed.

Lemma fetch_bytes_from_url_raises (url : string) (w w' : @World Env) (e : exn) :
  _fetch_bytes_from_url requests_get url w = (Raise e, w') ->
  (exists msg, e = ImageGenerationError msg \/ e = UpstreamUnavailable msg)
  \/ e = OtherException "RequestException".
Proof.
  unfold _fetch_bytes_from_url, bind, do_requests_get.
  destruct (requests_get url (env w)) as [[resp|] e1]; simpl.
  - destruct ((status_code resp =? 429)
              || (500 <=? status_code resp) && (status_code resp <? 600));
      [|destruct (400 <=? status_code resp)]; simpl; intro H;
      try discriminate H; injection H as <- _; left; eexists; eauto.
  - intro H. injection H as <- _. now right.
Qed.

(** The shape of one attempt: its chat request first, then nothing that is a
    chat request or a sleep. *)
Lemma attempt_adds (w : @World Env) :
  exists events,
    log (snd (attempt w)) = (log w ++ ChatCompletionsCreate the_chat_request :: events)%list
    /\ inside_attempt events.
Proof.
  assert (Hw1 : forall (e1 : Env) (w' : @World Env),
             adds inside_attempt
                  {| env := e1;
                     log := log w ++ [ChatCompletionsCreate the_chat_request] |} w' ->
             exists events,
               log w' = (log w ++ ChatCompletionsCreate the_chat_request :: events)%list
               /\ inside_attempt events).
  { intros e1 w' (events & Hl & Hin). exists events. split; [|exact Hin].
    rewrite Hl. simpl. now rewrite <- app_assoc. }
  unfold _sync_request_and_extract_bytes, do_chat_completions_create, messages.
  destruct (chat_completions_create the_chat_request (env w)) as [[resp| |] e1];
    try (apply (Hw1 e1); apply adds_refl).
  destruct (nth_error (choices resp) 0) as [choice|];
    [|apply (Hw1 e1); apply adds_refl].
  apply (Hw1 e1).
  destruct (content (message choice)) as [| | |text|parts|items].
  4: { destruct (_extract_url_from_text text) as [url|]; [|apply adds_refl].
       apply fetch_bytes_from_url_adds. }
  4: { unfold bind.
       pose proof (extract_bytes_from_parts_adds
                     parts
                     {| env := e1;
                        log := log w ++ [ChatCompletionsCreate the_chat_request] |})
         as H.
       revert H.
       destruct (_extract_bytes_from_parts requests_get b64decode parts _)
         as [[found|e] w2]; intro H; [|exact H].
       eapply adds_trans; [exact H | apply after_scan_adds]. }
  all: apply (after_scan_adds None).
Qed.

(** What one attempt can raise. *)
Lemma attempt_raises (w w' : @World Env) (e : exn) :
  attempt w = (Raise e, w') ->
  (exists msg, e = ImageGenerationError msg \/ e = UpstreamUnavailable msg)
  \/ e = OtherException "RequestException".
Proof.
  unfold _sync_request_and_extract_bytes, do_chat_completions_create, messages.
  destruct (chat_completions_create the_chat_request (env w)) as [[resp| |] e1];
    try (intro H; injection H as <- _; left; eexists; eauto).
  destruct (nth_error (choices resp) 0) as [choice|];
    [|intro H; injection H as <- _; left; eexists; eauto].
  destruct (content (message choice)) as [| | |text|parts|items].
  4: { destruct (_extract_url_from_text text) as [url|];
         [apply fetch_bytes_from_url_raises
         |intro H; injection H as <- _; left; eexists; eauto]. }
  4: { unfold bind.
       destruct (extract_bytes_from_parts_returns
                   requests_get b64decode parts
                   {| env := e1;
                      log := log w ++ [ChatCompletionsCreate the_chat_request] |})
         as (found & w2 & ->).
       intro H. left. eapply after_scan_raises. exact H. }
  all: intro H; left; exact (after_scan_raises None _ _ _ H).
Qed.

Lemma attempts_one (req : ChatRequest) (n : nat) (inside : list event) :
  inside_attempt inside ->
  attempts req n 0 (ChatCompletionsCreate req :: inside).
Proof.
  intro H. exists inside. split; [exact H|reflexivity].
Qed.

Lemma attempts_more (req : ChatRequest) (n more : nat) (inside rest : list event) :
  inside_attempt inside ->
  attempts req (S n) more rest ->
  attempts req n (S more) (ChatCompletionsCreate req :: inside ++ Sleep n :: rest)%list.
Proof.
  intros H Hrest. exists inside. split; [exact H|].
  exists rest. split; [reflexivity|exact Hrest].
Qed.

Lemma attempt_loop_trace (remaining : nat) :
  forall (n : nat) (w : @World Env),
  exists events more,
    log (snd (attempt_loop wait is_UpstreamUnavailable false attempt remaining n w))
    = (log w ++ events)%list /\
    (more <= remaining)%nat /\
    attempts the_chat_request n more events /\
    chat_requests events = repeat the_chat_request (S more) /\
    sleeps events = seq n more /\
    (forall e,
        fst (attempt_loop wait is_UpstreamUnavailable false attempt remaining n w)
        = Raise (RetryError e) -> more = remaining).
Proof.
  induction remaining as [|remaining IH]; intros n w; simpl;
    destruct (attempt_adds w) as (ev1 & L1 & I1);
    pose proof (attempts_one the_chat_request n ev1 I1) as A1;
    pose proof I1 as [C1 S1];
    pose proof (attempt_raises w) as R1;
    destruct (attempt w) as [[d1|e1] w1]; simpl in L1.
  1, 3: exists (ChatCompletionsCreate the_chat_request :: ev1), 0%nat;
    cbn [chat_requests sleeps repeat seq fst snd]; rewrite C1, S1;
    repeat split; auto; try lia; discriminate.
  all: destruct e1 as [m|m|e1|name]; simpl.
  1, 4, 5, 8: exists (ChatCompletionsCreate the_chat_request :: ev1), 0%nat;
    cbn [chat_requests sleeps repeat seq fst snd]; rewrite C1, S1;
    repeat split; auto; try lia; discriminate.
  2, 4: exfalso; destruct (R1 w1 (RetryError e1) eq_refl) as [[msg [H|H]]|H];
    discriminate H.
  - exists (ChatCompletionsCreate the_chat_request :: ev1), 0%nat.
    cbn [chat_requests sleeps repeat seq fst snd]. rewrite C1, S1.
    repeat split; auto.
  - destruct (IH (S n) (do_sleep wait n w1))
      as (ev2 & more & L2 & Hk & A2 & C2 & S2 & R2).
    exists (ChatCompletionsCreate the_chat_request :: ev1 ++ Sleep n :: ev2)%list,
           (S more).
    split; [|split; [lia|split; [now apply attempts_more|split; [|split]]]].
    + rewrite L2. simpl. rewrite L1. rewrite <- !app_assoc. reflexivity.
    + cbn [chat_requests]. rewrite chat_requests_app, C1.
      cbn [chat_requests app]. now rewrite C2.
    + cbn [sleeps]. rewrite sleeps_app, S1. cbn [sleeps app]. now rewrite S2.
    + intros e He. f_equal. eauto.
Qed.

(** X7: whatever the provider and the network do, the events one call of
    [generate_image] adds to the log are one, two or three attempts in a row:
    each attempt begins with the chat request, every time the same one, built
    from the prompt and the two URLs, and is followed by no other chat request
    and no sleep until the attempt is over; exactly one sleep lies between an
    attempt and the next (the one after attempt 1, then the one after
    attempt 2) and none follows the last; the call raises [RetryError] only
    after the third attempt. *)
Theorem generate_image_sends_one_to_three_requests (w0 : @World Env) :
  exists events more,
    log (snd (generate w0)) = (log w0 ++ events)%list /\
    (more <= 2)%nat /\
    attempts the_chat_request 1 more events /\
    chat_requests events = repeat the_chat_request (S more) /\
    sleeps events = seq 1 more /\
    (forall e, fst (generate w0) = Raise (RetryError e) -> more = 2%nat).
Proof.
  apply (attempt_loop_trace 2 1 w0).
Qed.

Lemma generate_image_raises (w0 w' : @World Env) (e : exn) :
  generate w0 = (Raise e, w') ->
  ((exists msg, e = ImageGenerationError msg) \/
   (exists msg, e = RetryError (UpstreamUnavailable msg)) \/
   e = OtherException "RequestException") /\
  is_UpstreamUnavailable e = false.
Proof.
  rewrite (generate_image_attempts
             requests_get chat_completions_create responses_create wait b64decode
             settings_OPENROUTER_API_KEY prompt initial_url reference_url api_key
             model http_referer x_title extra_body w0).
  assert (Hone : forall w1 w2 e1,
             attempt w1 = (Raise e1, w2) ->
             is_UpstreamUnavailable e1 = false ->
             ((exists msg, e1 = ImageGenerationError msg) \/
              (exists msg, e1 = RetryError (UpstreamUnavailable msg)) \/
              e1 = OtherException "RequestException") /\
             is_UpstreamUnavailable e1 = false).
  { intros w1 w2 e1 H Hn. split; [|exact Hn].
    destruct (attempt_raises w1 w2 e1 H) as [[msg [-> | ->]] | ->]; eauto.
    discriminate Hn. }
  destruct (attempt w0) as [[d1|e1] w1] eqn:A1; [discriminate|].
  destruct e1 as [m|m|e1|name];
    try (intro H; injection H as <- <-; eapply Hone; [exact A1|reflexivity]).
  destruct (attempt (do_sleep wait 1 w1)) as [[d2|e2] w2] eqn:A2; [discriminate|].
  destruct e2 as [m2|m2|e2|name];
    try (intro H; injection H as <- <-; eapply Hone; [exact A2|reflexivity]).
  destruct (attempt (do_sleep wait 2 w2)) as [[d3|e3] w3] eqn:A3; [discriminate|].
  destruct e3 as [m3|m3|e3|name];
    try (intro H; injection H as <- <-; eapply Hone; [exact A3|reflexivity]).
  intro H. injection H as <- <-. split; [|reflexivity]. right. left. eauto.
Qed.

(** X8: the only exceptions a call of [generate_image] raises are
    [ImageGenerationError], [RetryError] around an [UpstreamUnavailable], and
    the error of [requests] when the download of a URL found in a text answer
    cannot be made; it never raises [UpstreamUnavailable] itself. *)
Theorem generate_image_raises_only (w0 w' : @World Env) (e : exn) :
  generate w0 = (Raise e, w') ->
  ((exists msg, e = ImageGenerationError msg) \/
   (exists msg, e = RetryError (UpstreamUnavailable msg)) \/
   e = OtherException "RequestException") /\
  is_UpstreamUnavailable e = false.
Proof.
  exact (generate_image_raises w0 w' e).
Qed.

(** *** Payloads *)

(** X9: the scan of a parts list returns nothing or a payload of at least
    one byte: a part that yields zero bytes is passed over like a part that
    yields nothing. *)
Theorem extract_bytes_from_parts_payload_not_empty
        (parts : list value) (w w' : @World Env) (data : bytes) :
  _extract_bytes_from_parts requests_get b64decode parts w = (Return (Some data), w') ->
  data <> [].
Proof.
  revert w. induction parts as [|part rest IH]; intro w; simpl.
  - discriminate.
  - destruct (_extract_bytes_from_part requests_get b64decode part w)
      as [[found|e] w1]; [|apply IH].
    destruct found as [[|b d]|]; simpl; try apply IH.
    intro H. injection H as <- _. discriminate.
Qed.

(** X10: scanning two lists of parts one after the other is scanning their
    concatenation: the second list is scanned, from where the first scan left
    the world, exactly when the first scan found no payload. *)
Theorem extract_bytes_from_parts_app (parts1 parts2 : list value) (w : @World Env) :
  _extract_bytes_from_parts requests_get b64decode (parts1 ++ parts2) w =
  match _extract_bytes_from_parts requests_get b64decode parts1 w with
  | (Return (Some (b :: data)), w1) => (Return (Some (b :: data)), w1)
  | (_, w1) => _extract_bytes_from_parts requests_get b64decode parts2 w1
  end.
Proof.
  revert w. induction parts1 as [|part rest IH]; intro w; simpl.
  - reflexivity.
  - destruct (_extract_bytes_from_part requests_get b64decode part w)
      as [[found|e] w1]; [|apply IH].
    destruct found as [[|b d]|]; simpl; try apply IH. reflexivity.
Qed.

(** X11: a part whose declared type is neither ["image_url"] nor
    ["output_image"] is never fetched: its extraction makes no request and
    leaves the world as it is, whether it decodes inline data, finds none, or
    raises. *)
Theorem extract_bytes_from_part_fetches_image_types_only
        (part : value) (w : @World Env) :
  (forall t, _get part "type" = VStr t -> t <> "image_url" /\ t <> "output_image") ->
  snd (_extract_bytes_from_part requests_get b64decode part w) = w.
Proof.
  intro Htype. unfold _extract_bytes_from_part.
  destruct (_get part "type") as [| | |t| |] eqn:Ht; try reflexivity;
    try (destruct (Htype t eq_refl) as [H1 H2];
         apply String.eqb_neq in H1, H2; rewrite H1, H2; cbn [orb]);
    repeat match goal with
           | |- context [if truthy ?u then _ else _] => destruct (truthy u)
           end; try reflexivity;
    unfold bind; cbv beta;
    match goal with
    | |- context [_decode_b64 b64decode ?v w] =>
        pose proof (decode_b64_same_world v w) as H; revert H;
        destruct (_decode_b64 b64decode v w) as [[d|e] w1];
        simpl; intros ->; reflexivity
    end.
Qed.

Lemma after_scan_payload_not_empty (found : option bytes) (w w' : @World Env)
      (data : bytes) :
  after_scan found w = (Return data, w') -> data <> [].
Proof.
  destruct found as [[|b d]|]; unfold bind, ret;
    try (intro H; injection H as <- _; discriminate);
    destruct (fallback w) as [[[[|b' d']|]|e3] w3]; intro H;
    try discriminate H; injection H as <- _; discriminate.
Qed.

(** X12: when the provider never answers with plain text as the first
    choice's content, the bytes [generate_image] returns are never empty:
    zero bytes can only come from the download of a URL found in a text
    answer. *)
Theorem generate_image_payload_not_empty (w0 w' : @World Env) (data : bytes) :
  (forall req e resp e' choice text,
      chat_completions_create req e = (Responded resp, e') ->
      nth_error (choices resp) 0 = Some choice ->
      content (message choice) <> VStr text) ->
  generate w0 = (Return data, w') ->
  data <> [].
Proof.
  intro Hnt.
  assert (Hone : forall w1 w2 d, attempt w1 = (Return d, w2) -> d <> []).
  { intros w1 w2 d.
    unfold _sync_request_and_extract_bytes, do_chat_completions_create, messages.
    pose proof (Hnt the_chat_request (env w1)) as Hn.
    destruct (chat_completions_create the_chat_request (env w1))
      as [[resp| |] e1]; try discriminate.
    specialize (Hn resp e1).
    destruct (nth_error (choices resp) 0) as [choice|]; [|discriminate].
    specialize (fun text => Hn choice text eq_refl eq_refl).
    destruct (content (message choice)) as [| | |text|parts|items].
    4: { exfalso. now apply (Hn text). }
    4: { unfold bind.
         destruct (_extract_bytes_from_parts requests_get b64decode parts _)
           as [[found|e] w3]; [|discriminate].
         apply after_scan_payload_not_empty. }
    all: apply (after_scan_payload_not_empty None). }
  rewrite (generate_image_attempts
             requests_get chat_completions_create responses_create wait b64decode
             settings_OPENROUTER_API_KEY prompt initial_url reference_url api_key
             model http_referer x_title extra_body w0).
  destruct (attempt w0) as [[d1|e1] w1] eqn:A1.
  { intro H. injection H as <- _. eauto. }
  destruct e1 as [m|m|e1|name]; try discriminate.
  destruct (attempt (do_sleep wait 1 w1)) as [[d2|e2] w2] eqn:A2.
  { intro H. injection H as <- _. eauto. }
  destruct e2 as [m2|m2|e2|name]; try discriminate.
  destruct (attempt (do_sleep wait 2 w2)) as [[d3|e3] w3] eqn:A3.
  { intro H. injection H as <- _. eauto. }
  destruct e3 as [m3|m3|e3|name]; discriminate.
Qed.

End UpstreamTrace.

Section UpstreamTraceWitnesses.
Import openrouter_service trace.
Local Open Scope Z_scope.

Lemma generate_image_raises_only_witness :
  ((exists msg, RetryError (UpstreamUnavailable "OpenRouter request failed")
                = ImageGenerationError msg) \/
   (exists msg, RetryError (UpstreamUnavailable "OpenRouter request failed")
                = RetryError (UpstreamUnavailable msg)) \/
   RetryError (UpstreamUnavailable "OpenRouter request failed")
   = OtherException "RequestException") /\
  is_UpstreamUnavailable
    (RetryError (UpstreamUnavailable "OpenRouter request failed")) = false.
Proof.
  eapply (generate_image_raises_only
            stub.requests_get stub.chat_completions_create
            stub.responses_create stub.wait stub.b64decode
            "sk-or-test" "swap background"
            (Some "https://cdn.example/initial.jpg") None None
            "google/gemini-2.5-flash-image-preview:free" None None None
            (stub.start stub.always_unavailable)).
  reflexivity.
Defined.

Lemma extract_bytes_from_parts_payload_not_empty_witness :
  fst (stub.run_extract_bytes_from_parts stub.two_image_parts
                                         (stub.start stub.first_fetch_503))
  = Return (Some [Byte.x89; Byte.x50]) /\
  [Byte.x89; Byte.x50] <> [].
Proof.
  split; [reflexivity|].
  eapply (extract_bytes_from_parts_payload_not_empty
            stub.requests_get stub.b64decode stub.two_image_parts
            (stub.start stub.first_fetch_503)).
  reflexivity.
Defined.

Lemma extract_bytes_from_part_fetches_image_types_only_witness :
  snd (stub.run_extract_bytes_from_part stub.text_part_with_inline_data
                                        (stub.start stub.first_fetch_503))
  = stub.start stub.first_fetch_503 /\
  fst (stub.run_extract_bytes_from_part stub.text_part_with_inline_data
                                        (stub.start stub.first_fetch_503))
  = Return (Some [Byte.x68; Byte.x69]).
Proof.
  split; [|reflexivity].
  apply (extract_bytes_from_part_fetches_image_types_only
           stub.requests_get stub.b64decode stub.text_part_with_inline_data
           (stub.start stub.first_fetch_503)).
  intros t H. injection H as <-. split; discriminate.
Defined.

Lemma generate_image_payload_not_empty_witness :
  fst (generate_image
         stub.requests_get stub.chat_always_empty_parts
         stub.responses_create stub.wait stub.b64decode
         "sk-or-test" "swap background"
         (Some "https://cdn.example/initial.jpg") None None
         "google/gemini-2.5-flash-image-preview:free" None None None
         (stub.start stub.empty_parts_then_fallback))
  = Return [Byte.x68; Byte.x69] /\
  [Byte.x68; Byte.x69] <> [].
Proof.
  split; [reflexivity|].
  eapply (generate_image_payload_not_empty
            stub.requests_get stub.chat_always_empty_parts
            stub.responses_create stub.wait stub.b64decode
            "sk-or-test" "swap background"
            (Some "https://cdn.example/initial.jpg") None None
            "google/gemini-2.5-flash-image-preview:free" None None None
            (stub.start stub.empty_parts_then_fallback)).
  - intros req e resp e' choice text H Hn.
    injection H as <- _. injection Hn as <-. discriminate.
  - reflexivity.
Defined.

Lemma deep_find_image_payload_needs_an_offer_witness :
  _deep_find_image_payload
    stub.requests_get stub.b64decode
    (VDict [("output", VList [VDict [("type", VStr "message");
                                     ("text", VStr "https://cdn.example/a.png")]])])
    (stub.start stub.first_fetch_503)
  = (None, stub.start stub.first_fetch_503).
Proof.
  apply (deep_find_image_payload_needs_an_offer stub.requests_get stub.b64decode).
  reflexivity.
Defined.

End UpstreamTraceWitnesses.

(** ** The object store *)

Section StorageProperties.
Import openrouter_service storage_service.
Local Open Scope Z_scope.

Context {S3 : Type}.
Variable head_bucket : string -> S3 -> s3_outcome unit * S3.
Variable create_bucket : string -> S3 -> s3_outcome unit * S3.
Variable put_object : string -> string -> bytes -> string -> S3 -> s3_outcome unit * S3.
Variable generate_presigned_url : string -> string -> Z -> S3 -> s3_outcome string * S3.
Variable bucket : string.

Local Abbreviation ensure_sync := (_ensure_bucket_sync head_bucket create_bucket bucket).
Local Abbreviation ensure := (ensure_bucket_exists head_bucket create_bucket bucket).
Local Abbreviation upload :=
  (upload_from_bytes head_bucket create_bucket put_object bucket).
Local Abbreviation sign :=
  (get_signed_url head_bucket create_bucket generate_presigned_url bucket).

Lemma puts_app (a b : list s3_call) : puts (a ++ b) = (puts a ++ puts b)%list.
Proof.
  induction a as [|[] a IH]; simpl; auto. now rewrite IH.
Qed.

(** What the check does: one [head_bucket], and one [create_bucket] after it
    exactly when [head_bucket] raised [ClientError] with status 404. *)
Lemma ensure_bucket_sync_calls (st : @Store S3) :
  let (r, st') := ensure_sync st in
  _BUCKET_CHECKED st' = _BUCKET_CHECKED st /\
  ((calls st' = (calls st ++ [HeadBucket bucket])%list /\
    (forall s', head_bucket bucket (s3 st) <> (ClientError (Some 404), s'))) \/
   (calls st' = (calls st ++ [HeadBucket bucket; CreateBucket bucket])%list /\
    exists s', head_bucket bucket (s3 st) = (ClientError (Some 404), s'))) /\
  (forall e, r = Raise e -> exists name, e = OtherException name).
Proof.
  unfold _ensure_bucket_sync, call_client.
  destruct (head_bucket bucket (s3 st)) as [[[]|code|name] s1] eqn:Hh; simpl.
  - split; [reflexivity|]. split; [left; split; [reflexivity|discriminate]|].
    discriminate.
  - destruct code as [c|]; simpl.
    + destruct (c =? 404) eqn:Ec.
      * apply Z.eqb_eq in Ec. subst c.
        destruct (create_bucket bucket s1) as [[[]|code'|name'] s2]; simpl;
          (split; [reflexivity|]);
          (split; [right; split; [now rewrite <- app_assoc | eauto]|]);
          intros e H; try discriminate H; injection H as <-; eauto.
      * split; [reflexivity|]. split.
        -- left. split; [reflexivity|]. intros s' H. injection H as -> _.
           rewrite Z.eqb_refl in Ec. discriminate Ec.
        -- intros e H. injection H as <-. eauto.
    + split; [reflexivity|]. split.
      * left. split; [reflexivity|]. discriminate.
      * intros e H. injection H as <-. eauto.
  - split; [reflexivity|]. split; [left; split; [reflexivity|discriminate]|].
    intros e H. injection H as <-. eauto.
Qed.

(** X16: [_ensure_bucket_sync] asks for the bucket once and never touches
    the flag.  When [head_bucket] returns, the call returns and makes no
    other call.  When [head_bucket] raises [ClientError] with HTTP status 404,
    the call creates the bucket, and returns or raises as [create_bucket]
    does.  Any other failure of [head_bucket], a [ClientError] with another
    status or with none, or another exception, is raised to the caller, and no
    [create_bucket] is made. *)
Theorem ensure_bucket_sync_creates_only_after_404 (st : @Store S3) :
  let (r, st') := ensure_sync st in
  _BUCKET_CHECKED st' = _BUCKET_CHECKED st /\
  (forall s1,
      head_bucket bucket (s3 st) = (S3Returned tt, s1) ->
      r = Return tt /\
      calls st' = (calls st ++ [HeadBucket bucket])%list /\ s3 st' = s1) /\
  (forall s1,
      head_bucket bucket (s3 st) = (ClientError (Some 404), s1) ->
      calls st' = (calls st ++ [HeadBucket bucket; CreateBucket bucket])%list /\
      s3 st' = snd (create_bucket bucket s1) /\
      r = match fst (create_bucket bucket s1) with
          | S3Returned _ => Return tt
          | failed => Raise (raised failed)
          end) /\
  (forall code s1,
      head_bucket bucket (s3 st) = (ClientError code, s1) ->
      code <> Some 404 ->
      r = Raise (OtherException "ClientError") /\
      calls st' = (calls st ++ [HeadBucket bucket])%list /\ s3 st' = s1) /\
  (forall name s1,
      head_bucket bucket (s3 st) = (S3Exception name, s1) ->
      r = Raise (OtherException name) /\
      calls st' = (calls st ++ [HeadBucket bucket])%list /\ s3 st' = s1).
Proof.
  unfold _ensure_bucket_sync, call_client.
  destruct (head_bucket bucket (s3 st)) as [[[]|code|name] s1] eqn:Hh; simpl.
  - repeat split; intros; simpl; try discriminate; congruence.
  - destruct code as [c|]; simpl.
    + destruct (c =? 404) eqn:Ec.
      * apply Z.eqb_eq in Ec. subst c.
        destruct (create_bucket bucket s1) as [[[]|code'|name'] s2] eqn:Hc; simpl;
          repeat split; intros; try discriminate; try congruence;
          match goal with
          | H : (_, _) = (_, _) |- _ => injection H as ?; subst
          end; try rewrite Hc; simpl; try reflexivity;
          now rewrite <- app_assoc.
      * apply Z.eqb_neq in Ec.
        repeat split; intros; simpl; try discriminate; try congruence.
    + repeat split; intros; simpl; try discriminate; congruence.
  - repeat split; intros; simpl; try discriminate; congruence.
Qed.

(** X13: the bucket is checked once.  After one [ensure_bucket_exists] that
    returned, the flag is set, a further [ensure_bucket_exists] makes no call
    at all, and an upload makes exactly one call, the [put_object] of its
    object. *)
Theorem ensure_bucket_exists_checks_once (st st1 : @Store S3) :
  ensure st = (Return tt, st1) ->
  _BUCKET_CHECKED st1 = true /\
  ensure st1 = (Return tt, st1) /\
  (forall key data content_type,
      calls (snd (upload key data content_type st1))
      = (calls st1 ++ [PutObject bucket key data content_type])%list).
Proof.
  intro H.
  assert (Hflag : _BUCKET_CHECKED st1 = true).
  { unfold ensure_bucket_exists in H.
    destruct (_BUCKET_CHECKED st) eqn:E.
    - injection H as <-. exact E.
    - destruct (ensure_sync st) as [[[]|e] st']; [|discriminate H].
      injection H as <-. reflexivity. }
  assert (Hagain : ensure st1 = (Return tt, st1))
    by (unfold ensure_bucket_exists; now rewrite Hflag).
  repeat split; auto.
  intros key data content_type. unfold upload_from_bytes. rewrite Hagain.
  unfold call_client.
  destruct (put_object bucket key data content_type (s3 st1)) as [[[]|c|n] s2];
    reflexivity.
Qed.

(** X14: a check that fails is not remembered: when [ensure_bucket_exists]
    raises, the flag was unset and stays unset, so the next call checks the
    bucket again; and a check that raises has made no [put_object]. *)
Theorem ensure_bucket_exists_failure_not_cached (st st' : @Store S3) (e : exn) :
  ensure st = (Raise e, st') ->
  _BUCKET_CHECKED st = false /\
  _BUCKET_CHECKED st' = false /\
  exists new, calls st' = (calls st ++ new)%list /\ puts new = [].
Proof.
  unfold ensure_bucket_exists.
  destruct (_BUCKET_CHECKED st) eqn:E; [discriminate|].
  pose proof (ensure_bucket_sync_calls st) as H.
  destruct (ensure_sync st) as [[[]|e1] st1]; [discriminate|].
  intro Heq. injection Heq as <- <-.
  destruct H as (Hflag & Hcalls & _).
  repeat split; [congruence|].
  destruct Hcalls as [[-> _]|[-> _]]; eexists; split; reflexivity.
Qed.

(** X15: [upload_from_bytes] writes its own object or nothing: whatever
    happens, the only [put_object] it makes is that of the given key, bytes
    and content type in the configured bucket, it makes none when the bucket
    check fails, and when it returns it returns the key it was given, with
    the object written and the bucket check remembered. *)
Theorem upload_from_bytes_writes_its_object
        (key : string) (data : bytes) (content_type : string) (st : @Store S3) :
  let (r, st') := upload key data content_type st in
  exists new,
    calls st' = (calls st ++ new)%list /\
    (puts new = [] \/ puts new = [PutObject bucket key data content_type]) /\
    (forall k, r = Return k ->
               k = key /\
               puts new = [PutObject bucket key data content_type] /\
               _BUCKET_CHECKED st' = true).
Proof.
  unfold upload_from_bytes, ensure_bucket_exists.
  pose proof (ensure_bucket_sync_calls st) as Hs.
  assert (Hput : forall st1 new1,
             calls st1 = (calls st ++ new1)%list -> puts new1 = [] ->
             _BUCKET_CHECKED st1 = true ->
             let (r, st') :=
               match call_client (PutObject bucket key data content_type)
                                 (put_object bucket key data content_type) st1 with
               | (S3Returned _, st2) => (Return key, st2)
               | (failed, st2) => (Raise (raised failed), st2)
               end in
             exists new,
               calls st' = (calls st ++ new)%list /\
               (puts new = [] \/ puts new = [PutObject bucket key data content_type]) /\
               (forall k, r = Return k ->
                          k = key /\
                          puts new = [PutObject bucket key data content_type] /\
                          _BUCKET_CHECKED st' = true)).
  { intros st1 new1 Hc Hp Hf. unfold call_client.
    destruct (put_object bucket key data content_type (s3 st1)) as [[[]|c|n] s2];
      simpl; exists (new1 ++ [PutObject bucket key data content_type])%list;
      rewrite Hc, app_assoc, puts_app, Hp; simpl;
      (split; [reflexivity|]); (split; [now right|]);
      intros k H; try discriminate H; injection H as <-; auto. }
  destruct (_BUCKET_CHECKED st) eqn:E.
  - apply (Hput st []); [now rewrite app_nil_r|reflexivity|exact E].
  - destruct (ensure_sync st) as [[[]|e1] st1]; destruct Hs as (Hflag & Hcalls & _).
    + destruct Hcalls as [[Hc _]|[Hc _]];
        eapply (Hput {| s3 := s3 st1; _BUCKET_CHECKED := true; calls := calls st1 |});
        simpl; try exact Hc; reflexivity.
    + destruct Hcalls as [[-> _]|[-> _]]; eexists;
        (split; [reflexivity|]); (split; [now left|]); discriminate.
Qed.

End StorageProperties.

(** ** The smoke script: a whole run *)

Section SniffContentType.
Import openrouter_service smoke_service.

Lemma byte_eqb_eq (a b : Byte.byte) : Byte.eqb a b = true <-> a = b.
Proof.
  split; [apply Byte.byte_dec_bl | apply Byte.byte_dec_lb].
Qed.

Lemma startswith_app (data prefix : bytes) :
  startswith data prefix = true <-> exists rest, data = (prefix ++ rest)%list.
Proof.
  revert data. induction prefix as [|p prefix IH]; intro data; simpl.
  - split; [intros _; now exists data | intros _; destruct data; reflexivity].
  - destruct data as [|d data].
    + split; [discriminate | intros [rest H]; discriminate H].
    + simpl. rewrite andb_true_iff, byte_eqb_eq, IH. split.
      * intros [-> [rest ->]]. eauto.
      * intros [rest H]. injection H as -> ->. eauto.
Qed.

Lemma bytes_eqb_eq (a b : bytes) : bytes_eqb a b = true <-> a = b.
Proof.
  revert b. induction a as [|x a IH]; intros [|y b]; simpl;
    try (split; [discriminate|discriminate]); [tauto|].
  rewrite andb_true_iff, byte_eqb_eq, IH. split; [intros [-> ->]|intro H; injection H]; auto.
Qed.

(** X17: [sniff_content_type] decides on the first bytes alone: it answers
    ["image/png"] exactly for the data that begin with the eight-byte PNG
    signature, ["image/jpeg"] exactly for the data that begin with [ff d8],
    and ["application/octet-stream"] for everything else, the empty data
    included. *)
Theorem sniff_content_type_by_magic (data : bytes) :
  (sniff_content_type data = "image/png"
   <-> exists rest, data = (png_signature ++ rest)%list) /\
  (sniff_content_type data = "image/jpeg"
   <-> exists rest, data = Byte.xff :: Byte.xd8 :: rest) /\
  (sniff_content_type data = "application/octet-stream"
   <-> ~ (exists rest, data = (png_signature ++ rest)%list) /\
       ~ (exists rest, data = Byte.xff :: Byte.xd8 :: rest)).
Proof.
  assert (Hjpeg : bytes_eqb (firstn 2 data) [Byte.xff; Byte.xd8] = true
                  <-> exists rest, data = Byte.xff :: Byte.xd8 :: rest).
  { rewrite bytes_eqb_eq. split.
    - destruct data as [|a [|b rest]]; simpl; try discriminate.
      intro H. injection H as -> ->. eauto.
    - intros [rest ->]. reflexivity. }
  assert (Hboth : (exists rest, data = (png_signature ++ rest)%list) ->
                  (exists rest, data = Byte.xff :: Byte.xd8 :: rest) -> False).
  { intros [r1 ->] [r2 H]. discriminate H. }
  unfold sniff_content_type.
  destruct (startswith data png_signature) eqn:Ep.
  - apply startswith_app in Ep. clear Hjpeg. repeat split; auto; try discriminate.
    + intro H. exfalso. eauto.
    + intros [H _]. exfalso. eauto.
  - assert (Hn : ~ exists rest, data = (png_signature ++ rest)%list).
    { intro H. apply startswith_app in H. congruence. }
    destruct (bytes_eqb (firstn 2 data) [Byte.xff; Byte.xd8]) eqn:Ej.
    + pose proof (proj1 Hjpeg eq_refl) as Hj. repeat split; auto; try discriminate.
      * intro H. exfalso. eauto.
      * intros [_ H]. exfalso. eauto.
    + assert (Hnj : ~ exists rest, data = Byte.xff :: Byte.xd8 :: rest).
      { intro H. apply Hjpeg in H. discriminate H. }
      repeat split; auto; try discriminate; intro H; exfalso; eauto.
Qed.

End SniffContentType.

Section SmokeProperties.
Import models crud_job openrouter_service storage_service smoke_service.
Local Open Scope Z_scope.

Context {Env S3 : Type}.
Variable requests_get : string -> Env -> option Response * Env.
Variable chat_completions_create :
  ChatRequest -> Env -> api_outcome ChatCompletion * Env.
Variable responses_create : ResponsesRequest -> Env -> api_outcome value * Env.
Variable wait : nat -> Env -> Env.
Variable b64decode : string -> option bytes.
Variable head_bucket : string -> S3 -> s3_outcome unit * S3.
Variable create_bucket : string -> S3 -> s3_outcome unit * S3.
Variable put_object : string -> string -> bytes -> string -> S3 -> s3_outcome unit * S3.
Variable generate_presigned_url : string -> string -> Z -> S3 -> s3_outcome string * S3.
Variable bucket : string.
Variable settings_OPENROUTER_API_KEY : string.
Variable environ : string -> option string.
Variable run_id : string.
Variable new_uuid : UUID.
Variables created updated : DateTime.

Local Abbreviation run_main :=
  (main requests_get chat_completions_create responses_create wait b64decode
        head_bucket create_bucket put_object generate_presigned_url
        bucket settings_OPENROUTER_API_KEY environ run_id new_uuid created updated).

Local Abbreviation the_upload :=
  (smoke_service.upload head_bucket create_bucket put_object bucket).

Local Abbreviation the_transfer :=
  (transfer_inputs requests_get head_bucket create_bucket put_object bucket run_id).

Local Abbreviation the_sign :=
  (get_signed_url head_bucket create_bucket generate_presigned_url bucket).

Local Abbreviation new_job :=
  {| schemas.prompt := getenv environ "SMOKE_PROMPT" DEFAULT_PROMPT;
     schemas.initial_image_key := initial_key run_id;
     schemas.reference_image_key := Some (reference_key run_id) |}.

Local Abbreviation the_generate :=
  (generate_image
     requests_get chat_completions_create responses_create wait
     b64decode settings_OPENROUTER_API_KEY
     (getenv environ "SMOKE_PROMPT" DEFAULT_PROMPT)
     (Some (getenv environ "SMOKE_INITIAL_URL" DEFAULT_INITIAL_URL))
     (Some (getenv environ "SMOKE_REFERENCE_URL" DEFAULT_REFERENCE_URL)) None
     (getenv environ "OPENROUTER_MODEL" "google/gemini-2.5-flash-image-preview")
     (environ "HTTP_REFERER") (environ "X_TITLE")
     (Some [("max_tokens", VInt 1024)])).

(** *** What the steps of a run can raise *)

Lemma raised_is_other {A : Type} (r : s3_outcome A) :
  exists name, raised r = OtherException name.
Proof.
  destruct r; simpl; eauto.
Qed.

Lemma ensure_raises_other (st st' : @Store S3) (e : exn) :
  ensure_bucket_exists head_bucket create_bucket bucket st = (Raise e, st') ->
  exists name, e = OtherException name.
Proof.
  unfold ensure_bucket_exists. destruct (_BUCKET_CHECKED st); [discriminate|].
  pose proof (ensure_bucket_sync_calls head_bucket create_bucket bucket st) as H.
  destruct (_ensure_bucket_sync head_bucket create_bucket bucket st)
    as [[[]|e1] st1]; [discriminate|].
  intro Heq. injection Heq as <- _. destruct H as (_ & _ & H). eauto.
Qed.

Lemma upload_raises_other (key : string) (data : bytes) (content_type : string)
      (st st' : @Store S3) (e : exn) :
  upload_from_bytes head_bucket create_bucket put_object bucket
                    key data content_type st = (Raise e, st') ->
  exists name, e = OtherException name.
Proof.
  unfold upload_from_bytes.
  destruct (ensure_bucket_exists head_bucket create_bucket bucket st)
    as [[[]|e1] st1] eqn:E.
  - unfold call_client.
    destruct (put_object bucket key data content_type (s3 st1)) as [[[]|c|n] s2];
      intro H; try discriminate H; injection H as <- _; simpl; eauto.
  - intro H. injection H as <- _. eapply ensure_raises_other; eauto.
Qed.

Lemma sign_raises_other (key : string) (expires : Z) (st st' : @Store S3) (e : exn) :
  the_sign key expires st = (Raise e, st') ->
  exists name, e = OtherException name.
Proof.
  unfold get_signed_url.
  destruct (ensure_bucket_exists head_bucket create_bucket bucket st)
    as [[[]|e1] st1] eqn:E.
  - unfold call_client.
    destruct (generate_presigned_url bucket key expires (s3 st1)) as [[u|c|n] s2];
      intro H; try discriminate H; injection H as <- _; simpl; eauto.
  - intro H. injection H as <- _. eapply ensure_raises_other; eauto.
Qed.

Lemma download_raises_other (url : string) (w w' : @World Env) (e : exn) :
  _download_bytes requests_get url w = (Raise e, w') ->
  exists name, e = OtherException name.
Proof.
  unfold _download_bytes, bind, do_requests_get.
  destruct (requests_get url (env w)) as [[resp|] e1]; simpl.
  - destruct ((400 <=? status_code resp) && (status_code resp <? 600)); simpl;
      intro H; try discriminate H; injection H as <- _; eauto.
  - intro H. injection H as <- _. eauto.
Qed.

Lemma transfer_raises_other (initial_url reference_url : string)
      (w w' : @World Env) (st st' : @Store S3) (e : exn) :
  the_transfer initial_url reference_url w st = (Raise e, w', st') ->
  exists name, e = OtherException name.
Proof.
  unfold transfer_inputs, smoke_service.upload.
  destruct (_download_bytes requests_get initial_url w) as [[d1|e1] w1] eqn:D1.
  2: { intro H. injection H as <- _ _. eapply download_raises_other; eauto. }
  destruct (_download_bytes requests_get reference_url w1) as [[d2|e2] w2] eqn:D2.
  2: { intro H. injection H as <- _ _. eapply download_raises_other; eauto. }
  destruct (upload_from_bytes _ _ _ _ (initial_key run_id) d1 _ st)
    as [[k1|e3] st1] eqn:U1.
  2: { intro H. injection H as <- _ _. eapply upload_raises_other; eauto. }
  destruct (upload_from_bytes _ _ _ _ (reference_key run_id) d2 _ st1)
    as [[k2|e4] st2] eqn:U2.
  2: { intro H. injection H as <- _ _. eapply upload_raises_other; eauto. }
  discriminate.
Qed.

Lemma commit_error_is_other {A : Type} (r : outcome A) :
  exists name, commit_error r = OtherException name.
Proof.
  destruct r; simpl; eauto.
Qed.

(** *** The job after its creation *)

Lemma create_job_returned (database db1 : Database) (job : GenerationJob)
      (job_in : schemas.JobCreate) :
  well_formed database ->
  create_job database new_uuid created job_in = Returned (db1, job) ->
  well_formed db1 /\
  get_job_by_uuid database new_uuid = None /\
  get_job_by_uuid db1 new_uuid = Some job /\
  uuid job = new_uuid /\
  status job = Some PENDING /\
  generated_image_key job = None /\
  (forall other, other <> new_uuid ->
                 get_job_by_uuid db1 other = get_job_by_uuid database other).
Proof.
  intros Hwf H.
  pose proof (run_well_formed database (Create new_uuid created job_in) Hwf) as Hwf1.
  pose proof (fun other => run_other database (Create new_uuid created job_in)
                                     other Hwf) as Hother.
  simpl in Hwf1, Hother. rewrite H in Hwf1, Hother.
  unfold create_job in H.
  destruct (get_job_by_uuid database new_uuid) eqn:Hfresh; [discriminate H|].
  injection H as <- <-.
  split; [exact Hwf1|]. split; [reflexivity|]. split; [|repeat split; auto].
  unfold get_job_by_uuid in *. simpl.
  apply find_last; [exact Hfresh | simpl; apply N.eqb_refl].
Qed.

Lemma mark_failed_result {A : Type} (db1 : Database) (job : GenerationJob)
      (exc : exn) (w : @World Env) (st : @Store S3) :
  well_formed db1 ->
  get_job_by_uuid db1 (uuid job) = Some job ->
  exists db2 job',
    @mark_failed_and_raise Env S3 updated A db1 job exc w st
    = (Raise exc, {| db := db2; net := w; store := st |}) /\
    get_job_by_uuid db2 (uuid job) = Some job' /\
    status job' = Some FAILED /\
    generated_image_key job' = generated_image_key job /\
    (forall other, other <> uuid job ->
                   get_job_by_uuid db2 other = get_job_by_uuid db1 other).
Proof.
  intros Hwf Hget. unfold mark_failed_and_raise.
  pose proof (fun other =>
                run_other db1 (UpdateStatus (uuid job) updated FAILED None)
                          other Hwf) as Hother.
  simpl in Hother.
  destruct Hwf as (Hpk & _).
  destruct (update_job_status_found db1 updated (uuid job) FAILED None job Hpk Hget)
    as (db2 & job' & Hup & Hg & Hs & Hk & _).
  rewrite Hup in *. exists db2, job'. repeat split; auto.
Qed.

(** *** How a run can end *)

Lemma main_cases (p p' : Process) (r : result (UUID * string)) :
  well_formed (db p) ->
  run_main p = (r, p') ->
  (forall other, other <> new_uuid ->
                 get_job_by_uuid (db p') other = get_job_by_uuid (db p) other) /\
  (((exists name, r = Raise (OtherException name)) /\
    generation_jobs (db p') = generation_jobs (db p)) \/
   (get_job_by_uuid (db p) new_uuid = None /\
    exists job,
      get_job_by_uuid (db p') new_uuid = Some job /\
      ((((exists name, r = Raise (OtherException name)) \/
         (exists msg, r = Raise (ImageGenerationError msg))) /\
        status job = Some FAILED /\ generated_image_key job = None) \/
       (((exists name, r = Raise (OtherException name)) \/
         (exists e, r = Raise (RetryError e))) /\
        status job = Some PENDING /\ generated_image_key job = None) \/
       (((exists url, r = Return (new_uuid, url)) \/
         (exists name, r = Raise (OtherException name))) /\
        status job = Some COMPLETED /\
        generated_image_key job = Some (generated_key run_id))))).
Proof.
  intros Hwf. unfold main.
  destruct (String.eqb settings_OPENROUTER_API_KEY "").
  { intro H. injection H as <- <-. split; [reflexivity|]. left. eauto. }
  destruct (create_job (db p) new_uuid created new_job) as [[db1 job]| |] eqn:Hc.
  2, 3: intro H; injection H as <- <-; split; [reflexivity|]; left; simpl;
    split; [eauto|reflexivity].
  destruct (create_job_returned (db p) db1 job new_job Hwf Hc)
    as (Hwf1 & Hfresh & Hget1 & Hu & Hs & Hk & Hother1).
  rewrite <- Hu in Hget1.
  destruct (transfer_inputs _ _ _ _ _ _ _ _ (net p) (store p))
    as [[[[]|exc] w1] st1] eqn:Ht.
  2: { destruct (mark_failed_result (A := UUID * string) db1 job exc w1 st1 Hwf1 Hget1)
         as (db2 & job' & -> & Hg2 & Hs2 & Hk2 & Hother2).
       intro H. injection H as <- <-. simpl. rewrite Hu in *. split.
       - intros other Hne. rewrite Hother2, Hother1; auto.
       - right. split; [exact Hfresh|]. exists job'. split; [exact Hg2|].
         left. repeat split; try congruence.
         left. destruct (transfer_raises_other _ _ _ _ _ _ _ Ht) as [n ->]. eauto. }
  destruct (generate_image _ _ _ _ _ _ _ _ _ _ _ _ _ _ w1) as [[gen|e] w2] eqn:Hg.
  2: { destruct e as [msg|msg|e|name].
       - destruct (mark_failed_result (A := UUID * string) db1 job
                                      (ImageGenerationError msg) w2 st1 Hwf1 Hget1)
           as (db2 & job' & -> & Hg2 & Hs2 & Hk2 & Hother2).
         intro H. injection H as <- <-. simpl. rewrite Hu in *. split.
         + intros other Hne. rewrite Hother2, Hother1; auto.
         + right. split; [exact Hfresh|]. exists job'. split; [exact Hg2|].
           left. repeat split; try congruence. right. eauto.
       - exfalso.
         pose proof (generate_image_raises _ _ _ _ _ _ _ _ _ _ _ _ _ _ _ _ _ Hg)
           as [_ Hn].
         discriminate Hn.
       - intro H. injection H as <- <-. simpl. rewrite Hu in *. split; [exact Hother1|].
         right. split; [exact Hfresh|]. exists job. split; [exact Hget1|].
         right. left. repeat split; auto. right. eauto.
       - intro H. injection H as <- <-. simpl. rewrite Hu in *. split; [exact Hother1|].
         right. split; [exact Hfresh|]. exists job. split; [exact Hget1|].
         right. left. repeat split; auto. left. eauto. }
  destruct (smoke_service.upload _ _ _ _ _ gen st1) as [[k|e] st2] eqn:Hup.
  2: { intro H. injection H as <- <-. simpl. rewrite Hu in *. split; [exact Hother1|].
       right. split; [exact Hfresh|]. exists job. split; [exact Hget1|].
       right. left. repeat split; auto. left.
       destruct (upload_raises_other _ _ _ _ _ _ Hup) as [n ->]. eauto. }
  pose proof (fun other =>
                run_other db1 (UpdateStatus (uuid job) updated COMPLETED
                                            (Some (generated_key run_id)))
                          other Hwf1) as Hother2.
  simpl in Hother2.
  destruct (update_job_status_found db1 updated (uuid job) COMPLETED
                                    (Some (generated_key run_id)) job
                                    (proj1 Hwf1) Hget1)
    as (db2 & job' & Hupd & Hg2 & Hs2 & Hk2 & _).
  rewrite Hupd in *.
  assert (Hframe : forall other, other <> new_uuid ->
                                 get_job_by_uuid db2 other
                                 = get_job_by_uuid (db p) other).
  { intros other Hne. rewrite Hother2, Hother1; congruence. }
  rewrite Hu in *.
  destruct (get_signed_url _ _ _ _ _ _ st2) as [[url|e] st3] eqn:Hsign;
    intro H; injection H as <- <-; simpl; (split; [exact Hframe|]);
    right; (split; [exact Hfresh|]); exists job'; (split; [exact Hg2|]);
    right; right; repeat split; auto.
  - left. eauto.
  - right. destruct (sign_raises_other _ _ _ _ _ Hsign) as [n ->]. eauto.
Qed.

(** X18: when a run of the script returns, it returns the uuid of the job it
    created, and that job is stored [COMPLETED] with [generated_image_key]
    set to the run's [smoke/<run_id>/generated.jpg]. *)
Theorem main_returns_with_job_completed (p p' : Process) (u : UUID) (url : string) :
  well_formed (db p) ->
  run_main p = (Return (u, url), p') ->
  u = new_uuid /\
  exists job,
    get_job_by_uuid (db p') new_uuid = Some job /\
    status job = Some COMPLETED /\
    generated_image_key job = Some (generated_key run_id).
Proof.
  intros Hwf H. destruct (main_cases p p' _ Hwf H) as [_ Hcases].
  destruct Hcases as [[[n Hn] _]|[_ (job & Hget & Hcase)]]; [discriminate Hn|].
  destruct Hcase as [[[[n Hr]|[m Hr]] _]|[[[[n Hr]|[m Hr]] _]|[[[v Hr]|[n Hr]] Hjob]]];
    try discriminate Hr.
  injection Hr as -> _. split; [reflexivity|]. exists job. tauto.
Qed.

(** X19: when a run ends with the [RetryError] of [generate_image], that is
    when the provider stayed unavailable for all three attempts, the job the
    run created is left [PENDING] without a generated key: neither of the two
    handlers around [generate_image] catches [RetryError], so the job is not
    marked [FAILED]. *)
Theorem main_leaves_job_pending_when_retries_run_out (p p' : Process) (e : exn) :
  well_formed (db p) ->
  run_main p = (Raise (RetryError e), p') ->
  exists job,
    get_job_by_uuid (db p') new_uuid = Some job /\
    status job = Some PENDING /\
    generated_image_key job = None.
Proof.
  intros Hwf H. destruct (main_cases p p' _ Hwf H) as [_ Hcases].
  destruct Hcases as [[[n Hn] _]|[_ (job & Hget & Hcase)]]; [discriminate Hn|].
  destruct Hcase as [[[[n Hr]|[m Hr]] _]|[[[[n Hr]|[m Hr]] Hjob]|[[[v Hr]|[n Hr]] _]]];
    try discriminate Hr.
  exists job. tauto.
Qed.

(** X20: when a run ends with [ImageGenerationError], the job it created is
    stored [FAILED] and has no generated key. *)
Theorem main_marks_job_failed_on_generation_error (p p' : Process) (msg : string) :
  well_formed (db p) ->
  run_main p = (Raise (ImageGenerationError msg), p') ->
  exists job,
    get_job_by_uuid (db p') new_uuid = Some job /\
    status job = Some FAILED /\
    generated_image_key job = None.
Proof.
  intros Hwf H. destruct (main_cases p p' _ Hwf H) as [_ Hcases].
  destruct Hcases as [[[n Hn] _]|[_ (job & Hget & Hcase)]]; [discriminate Hn|].
  destruct Hcase as [[[[n Hr]|[m Hr]] Hjob]|[[[[n Hr]|[m Hr]] _]|[[[v Hr]|[n Hr]] _]]];
    try discriminate Hr.
  exists job. tauto.
Qed.

(** X21: however a run ends, it has touched no job but its own: every job
    stored under another uuid is found afterwards exactly as before. *)
Theorem main_touches_its_own_job_only (p p' : Process) (r : result (UUID * string))
        (other : UUID) :
  well_formed (db p) ->
  run_main p = (r, p') ->
  other <> new_uuid ->
  get_job_by_uuid (db p') other = get_job_by_uuid (db p) other.
Proof.
  intros Hwf H. destruct (main_cases p p' _ Hwf H) as [Hframe _]. apply Hframe.
Qed.


End SmokeProperties.

Section RunWitnesses.
Import models crud_job openrouter_service storage_service smoke_service.
Local Open Scope Z_scope.

Lemma ensure_bucket_exists_checks_once_witness :
  _BUCKET_CHECKED (snd (stub_s3.ensure_bucket_exists stub_s3.fresh)) = true /\
  calls (snd (stub_s3.upload_from_bytes
                "smoke/00ff/initial.jpg" [Byte.xff; Byte.xd8] "image/jpeg"
                (snd (stub_s3.ensure_bucket_exists stub_s3.fresh))))
  = [HeadBucket "virtual-ai"; CreateBucket "virtual-ai";
     PutObject "virtual-ai" "smoke/00ff/initial.jpg" [Byte.xff; Byte.xd8] "image/jpeg"].
Proof.
  destruct (ensure_bucket_exists_checks_once
              stub_s3.head_bucket stub_s3.create_bucket stub_s3.put_object
              "virtual-ai" stub_s3.fresh _ eq_refl) as (H1 & _ & H3).
  split; [exact H1|].
  exact (H3 "smoke/00ff/initial.jpg" [Byte.xff; Byte.xd8] "image/jpeg").
Defined.

Lemma ensure_bucket_exists_failure_not_cached_witness :
  _BUCKET_CHECKED
    (snd (ensure_bucket_exists stub_s3.head_bucket_forbidden stub_s3.create_bucket
                               "virtual-ai" stub_s3.fresh)) = false.
Proof.
  destruct (ensure_bucket_exists_failure_not_cached
              stub_s3.head_bucket_forbidden stub_s3.create_bucket
              "virtual-ai" stub_s3.fresh _ _ eq_refl) as (_ & H & _).
  exact H.
Defined.

Lemma empty_db_well_formed : well_formed empty_db.
Proof.
  repeat split; constructor.
Qed.

Lemma main_returns_with_job_completed_witness :
  exists job,
    get_job_by_uuid
      (db (snd (stub_s3.main stub_s3.all_goes_well empty_db))) 7%N = Some job /\
    status job = Some COMPLETED /\
    generated_image_key job = Some "smoke/00ff/generated.jpg".
Proof.
  destruct (main_returns_with_job_completed
              stub.requests_get stub.chat_completions_create stub.responses_create
              stub.wait stub.b64decode
              stub_s3.head_bucket stub_s3.create_bucket stub_s3.put_object
              stub_s3.generate_presigned_url
              "virtual-ai" "sk-or-test" (fun _ => None) "00ff" 7%N 100 200
              {| db := empty_db; net := stub.start stub_s3.all_goes_well;
                 store := stub_s3.fresh |}
              _ 7%N _ empty_db_well_formed eq_refl) as [_ H].
  exact H.
Defined.

Lemma main_leaves_job_pending_when_retries_run_out_witness :
  exists job,
    get_job_by_uuid
      (db (snd (stub_s3.main stub_s3.provider_down empty_db))) 7%N = Some job /\
    status job = Some PENDING /\
    generated_image_key job = None.
Proof.
  exact (main_leaves_job_pending_when_retries_run_out
           stub.requests_get stub.chat_completions_create stub.responses_create
           stub.wait stub.b64decode
           stub_s3.head_bucket stub_s3.create_bucket stub_s3.put_object
           stub_s3.generate_presigned_url
           "virtual-ai" "sk-or-test" (fun _ => None) "00ff" 7%N 100 200
           {| db := empty_db; net := stub.start stub_s3.provider_down;
              store := stub_s3.fresh |}
           (snd (stub_s3.main stub_s3.provider_down empty_db))
           (UpstreamUnavailable "OpenRouter request failed")
           empty_db_well_formed eq_refl).
Defined.

Lemma main_marks_job_failed_on_generation_error_witness :
  exists job,
    get_job_by_uuid
      (db (snd (stub_s3.main stub_s3.model_not_found empty_db))) 7%N = Some job /\
    status job = Some FAILED /\
    generated_image_key job = None.
Proof.
  exact (main_marks_job_failed_on_generation_error
           stub.requests_get stub.chat_completions_create stub.responses_create
           stub.wait stub.b64decode
           stub_s3.head_bucket stub_s3.create_bucket stub_s3.put_object
           stub_s3.generate_presigned_url
           "virtual-ai" "sk-or-test" (fun _ => None) "00ff" 7%N 100 200
           {| db := empty_db; net := stub.start stub_s3.model_not_found;
              store := stub_s3.fresh |}
           (snd (stub_s3.main stub_s3.model_not_found empty_db))
           "Model not available. Check model name or your access."
           empty_db_well_formed eq_refl).
Defined.

Lemma one_completed_well_formed : well_formed samples.one_completed.
Proof.
  repeat split; repeat constructor; simpl; try tauto; lia.
Qed.

Lemma main_touches_its_own_job_only_witness :
  get_job_by_uuid
    (db (snd (stub_s3.main stub_s3.provider_down
                           {| generation_jobs := [samples.completed_job];
                              id_seq := 2 |}))) 7%N
  = Some samples.completed_job.
Proof.
  exact (main_touches_its_own_job_only
           stub.requests_get stub.chat_completions_create stub.responses_create
           stub.wait stub.b64decode
           stub_s3.head_bucket stub_s3.create_bucket stub_s3.put_object
           stub_s3.generate_presigned_url
           "virtual-ai" "sk-or-test" (fun _ => None) "00ff" 9%N 100 200
           {| db := samples.one_completed; net := stub.start stub_s3.provider_down;
              store := stub_s3.fresh |}
           _ _ 7%N one_completed_well_formed eq_refl ltac:(discriminate)).
Defined.


End RunWitnesses.
